(** * Gold price alerts: the orchestration core of the alert page

    A shallow embedding of the page's helpers ([parseAgentResult],
    [buildCron], [composeAgentMessage], the local-storage accessors), of the
    recipient editor ([addEmail], [removeEmail]), of the three handlers
    ([handleToggleSchedule], [handleCheckNow], [handleSaveSettings]) and of
    [fetchWrapper], followed by the properties stated about them.

    JavaScript strings are sequences of UTF-16 code units; a thrown
    exception is an explicit [Throw] completion; React state, local storage
    and the calls made to the outside are threaded through a small state and
    exception monad. *)

From Stdlib Require Import String Ascii NArith ZArith List Lia DecimalString.
From stdpp Require Import base option list gmap.

Local Open Scope N_scope.
#[local] Set Warnings "-register-all".

(** ** JavaScript strings *)

Module JsString.

(** A string is the list of its UTF-16 code units. *)
Abbreviation jsstring := (list N).

(** The string written with ASCII characters only. *)
Definition js (s : string) : jsstring :=
  List.map N_of_ascii (list_ascii_of_string s).
Arguments js s%_string : simpl never.

(** The code unit of an ASCII character. *)
Definition ch (c : ascii) : N := N_of_ascii c.
Arguments ch c%_char : simpl never.

(** [s.split(sep)] for a separator of one code unit: the pieces between the
    separators; there is always at least one piece. *)
Fixpoint split (sep : N) (s : jsstring) : list jsstring :=
  match s with
  | [] => [[]]
  | c :: rest =>
      if c =? sep then [] :: split sep rest
      else match split sep rest with
           | piece :: pieces => (c :: piece) :: pieces
           | [] => [[c]]
           end
  end.

(** [parts.join(sep)]. *)
Fixpoint join (sep : jsstring) (parts : list jsstring) : jsstring :=
  match parts with
  | [] => []
  | [p] => p
  | p :: rest => p ++ sep ++ join sep rest
  end.

(** [s.includes(c)] for a needle of one code unit. *)
Definition includes_char (c : N) (s : jsstring) : bool :=
  existsb (N.eqb c) s.

(** White space and line terminators, the code units [trim] strips. *)
Definition is_trim_space (c : N) : bool :=
  (c =? 9) || (c =? 10) || (c =? 11) || (c =? 12) || (c =? 13) || (c =? 32)
  || (c =? 160) || (c =? 5760) || ((8192 <=? c) && (c <=? 8202))
  || (c =? 8232) || (c =? 8233) || (c =? 8239) || (c =? 8287)
  || (c =? 12288) || (c =? 65279).

Fixpoint trim_start (s : jsstring) : jsstring :=
  match s with
  | c :: rest => if is_trim_space c then trim_start rest else s
  | [] => []
  end.

(** [s.trim()]. *)
Definition trim (s : jsstring) : jsstring :=
  rev (trim_start (rev (trim_start s))).

(** [sub] occurs in [s] as a contiguous run. *)
Definition occurs_in (sub s : jsstring) : Prop :=
  exists before after, s = before ++ sub ++ after.

End JsString.
Import JsString.

(** ** Settings *)

Inductive Frequency := hourly | daily | weekly.
Inductive PriceUnit := ounce | gram.

Definition frequency_string (f : Frequency) : jsstring :=
  match f with
  | hourly => js "hourly"
  | daily => js "daily"
  | weekly => js "weekly"
  end.

Definition unit_string (u : PriceUnit) : jsstring :=
  match u with
  | ounce => js "ounce"
  | gram => js "gram"
  end.

Record AlertSettings := {
  recipientEmails : list jsstring;
  frequency : Frequency;
  triggerTime : jsstring;
  timezone : jsstring;
  thresholdEnabled : bool;
  thresholdAbove : jsstring;
  thresholdBelow : jsstring;
  unit : PriceUnit;
}.

Definition DEFAULT_SETTINGS : AlertSettings := {|
  recipientEmails := [];
  frequency := daily;
  triggerTime := js "09:00";
  timezone := js "America/New_York";
  thresholdEnabled := false;
  thresholdAbove := js "2500";
  thresholdBelow := js "2000";
  unit := ounce;
|}.

(** [{ ...settings, recipientEmails: emails }] *)
Definition with_recipientEmails (settings : AlertSettings)
    (emails : list jsstring) : AlertSettings := {|
  recipientEmails := emails;
  frequency := frequency settings;
  triggerTime := triggerTime settings;
  timezone := timezone settings;
  thresholdEnabled := thresholdEnabled settings;
  thresholdAbove := thresholdAbove settings;
  thresholdBelow := thresholdBelow settings;
  unit := unit settings;
|}.

(** ** Cron translation and message composition *)

(** [x ?? fallback]: the fallback replaces only an absent value. *)
Definition nullish {A} (x : option A) (fallback : A) : A :=
  match x with
  | Some a => a
  | None => fallback
  end.

Definition buildCron (frequency time : jsstring) : jsstring :=
  let parts := split (ch ":") time in
  let hour := parts !! 0%nat in
  let minute := parts !! 1%nat in
  let h := nullish hour (js "9") in
  let m := nullish minute (js "0") in
  if decide (frequency = js "hourly") then m ++ js " * * * *"
  else if decide (frequency = js "daily") then m ++ js " " ++ h ++ js " * * *"
  else if decide (frequency = js "weekly") then m ++ js " " ++ h ++ js " * * 1"
  else m ++ js " " ++ h ++ js " * * *".

(** A string is truthy when it is not empty. *)
Definition nonempty (s : jsstring) : bool :=
  match s with
  | [] => false
  | _ :: _ => true
  end.

Definition thresholdLine (settings : AlertSettings) : jsstring :=
  if thresholdEnabled settings then
    let unitLabel :=
      match unit settings with
      | gram => js "g"
      | ounce => js "oz"
      end in
    let parts :=
      (if nonempty (thresholdAbove settings)
       then [js "above $" ++ thresholdAbove settings ++ js "/" ++ unitLabel]
       else [])
      ++
      (if nonempty (thresholdBelow settings)
       then [js "below $" ++ thresholdBelow settings ++ js "/" ++ unitLabel]
       else []) in
    match parts with
    | [] => js "No threshold configured"
    | _ :: _ => js "Alert when price goes " ++ join (js " or ") parts
    end
  else js "No threshold configured".

Definition composeAgentMessage (settings : AlertSettings) : jsstring :=
  let emails :=
    match recipientEmails settings with
    | [] => js "no recipients configured"
    | _ :: _ => join (js ", ") (recipientEmails settings)
    end in
  js "Fetch current gold prices and send an alert email." ++ [10]
  ++ js "Recipients: " ++ emails ++ [10]
  ++ js "Threshold: " ++ thresholdLine settings ++ [10]
  ++ js "Unit preference: " ++ unit_string (unit settings).

(** ** JavaScript values and exceptions *)

Inductive exn :=
| SyntaxError
| Rejection (reason : jsstring).

(** How an evaluation ends: with a value, or by throwing. *)
Inductive completion (A : Type) :=
| Normal (a : A)
| Throw (e : exn).
Arguments Normal {A} a.
Arguments Throw {A} e.

(** A number is kept as the decimal it was written as,
    [(-1)^negative * mantissa * 10^exponent], and stands for the double
    nearest to it, which is an infinity when the decimal lies beyond the
    range of the doubles. *)
Inductive number :=
| NaN
| Infinity (negative : bool)
| Decimal (negative : bool) (mantissa : N) (exponent : Z).

Inductive value :=
| VUndefined
| VNull
| VBool (b : bool)
| VNumber (n : number)
| VString (s : jsstring)
| VBigInt (z : Z)
| VSymbol (id : N)
| VFunction (id : N)
| VArray (items : list value)
| VObject (props : list (jsstring * value)).

Definition typeof (v : value) : jsstring :=
  match v with
  | VUndefined => js "undefined"
  | VNull => js "object"
  | VBool _ => js "boolean"
  | VNumber _ => js "number"
  | VString _ => js "string"
  | VBigInt _ => js "bigint"
  | VSymbol _ => js "symbol"
  | VFunction _ => js "function"
  | VArray _ => js "object"
  | VObject _ => js "object"
  end.

(** The double nearest to the decimal is zero: the mantissa is zero, or the
    decimal is at most [2^-1075], half the least positive double. *)
Definition rounds_to_zero (mantissa : N) (exponent : Z) : bool :=
  (mantissa =? 0)
  || ((exponent <? 0)%Z && (mantissa * 2 ^ 1075 <=? 10 ^ Z.to_N (- exponent))).

(** [ToBoolean]. *)
Definition truthy (v : value) : bool :=
  match v with
  | VUndefined | VNull => false
  | VBool b => b
  | VNumber NaN => false
  | VNumber (Infinity _) => true
  | VNumber (Decimal _ m e) => negb (rounds_to_zero m e)
  | VString s => nonempty s
  | VBigInt z => negb (z =? 0)%Z
  | VSymbol _ | VFunction _ | VArray _ | VObject _ => true
  end.

(** ** [JSON.parse] *)

Module Json.

(** The outcome of one parsing function: a result and the text after it, a
    syntax error, or recursion budget exhausted. *)
Inductive presult (A : Type) :=
| POk (a : A) (rest : jsstring)
| PError
| PFuel.
Arguments POk {A} a rest.
Arguments PError {A}.
Arguments PFuel {A}.

Definition is_ws (c : N) : bool :=
  (c =? 9) || (c =? 10) || (c =? 13) || (c =? 32).

Fixpoint skip_ws (s : jsstring) : jsstring :=
  match s with
  | c :: rest => if is_ws c then skip_ws rest else s
  | [] => []
  end.

Definition is_digit (c : N) : bool := (48 <=? c) && (c <=? 57).

Definition hex_value (c : N) : option N :=
  if is_digit c then Some (c - 48)
  else if (97 <=? c) && (c <=? 102) then Some (c - 87)
  else if (65 <=? c) && (c <=? 70) then Some (c - 55)
  else None.

Definition hex4 (a b c d : N) : option N :=
  match hex_value a, hex_value b, hex_value c, hex_value d with
  | Some x3, Some x2, Some x1, Some x0 =>
      Some (((x3 * 16 + x2) * 16 + x1) * 16 + x0)
  | _, _, _, _ => None
  end.

(** The character a one-letter escape stands for. *)
Definition simple_escape (c : N) : option N :=
  if c =? 34 then Some 34
  else if c =? ch "\" then Some (ch "\")
  else if c =? ch "/" then Some (ch "/")
  else if c =? ch "b" then Some 8
  else if c =? ch "f" then Some 12
  else if c =? ch "n" then Some 10
  else if c =? ch "r" then Some 13
  else if c =? ch "t" then Some 9
  else None.

Definition cons_char (c : N) (r : option (jsstring * jsstring))
  : option (jsstring * jsstring) :=
  match r with
  | Some (str, rest) => Some (c :: str, rest)
  | None => None
  end.

(** The characters of a string literal, read after its opening quote, up
    to and including the closing quote. *)
Fixpoint parse_string_chars (s : jsstring) : option (jsstring * jsstring) :=
  match s with
  | [] => None
  | c :: rest =>
      if c =? 34 then Some ([], rest)
      else if c =? ch "\" then
        match rest with
        | e :: rest1 =>
            if e =? ch "u" then
              match rest1 with
              | h3 :: h2 :: h1 :: h0 :: rest2 =>
                  match hex4 h3 h2 h1 h0 with
                  | Some u => cons_char u (parse_string_chars rest2)
                  | None => None
                  end
              | _ => None
              end
            else
              match simple_escape e with
              | Some x => cons_char x (parse_string_chars rest1)
              | None => None
              end
        | [] => None
        end
      else if c <? 32 then None
      else cons_char c (parse_string_chars rest)
  end.

Fixpoint span_digits (s : jsstring) : jsstring * jsstring :=
  match s with
  | c :: rest =>
      if is_digit c
      then let '(digits, after) := span_digits rest in (c :: digits, after)
      else ([], s)
  | [] => ([], [])
  end.

Definition digits_value (digits : jsstring) : N :=
  fold_left (fun acc c => 10 * acc + (c - 48)) digits 0.

Fixpoint drop_zeros (digits : jsstring) : jsstring :=
  match digits with
  | c :: rest => if c =? ch "0" then drop_zeros rest else digits
  | [] => []
  end.

(** The number written with the given digits, scaled by [10^exponent];
    trailing zeros of the digits move into the exponent. *)
Definition make_number (negative : bool) (digits : jsstring) (exponent : Z)
  : number :=
  let significant := rev (drop_zeros (rev digits)) in
  let shifted := (length digits - length significant)%nat in
  let mantissa := digits_value significant in
  if mantissa =? 0 then Decimal negative 0 0
  else Decimal negative mantissa (exponent + Z.of_nat shifted).

(** [. digits], when present. *)
Definition parse_fraction (s : jsstring) : option (jsstring * jsstring) :=
  match s with
  | c :: rest =>
      if c =? ch "." then
        match span_digits rest with
        | ([], _) => None
        | (digits, after) => Some (digits, after)
        end
      else Some ([], s)
  | [] => Some ([], s)
  end.

(** [e] or [E], an optional sign and digits, when present. *)
Definition parse_exponent (s : jsstring) : option (Z * jsstring) :=
  match s with
  | c :: rest =>
      if (c =? ch "e") || (c =? ch "E") then
        let '(minus, rest1) :=
          match rest with
          | sign :: rest' =>
              if sign =? ch "-" then (true, rest')
              else if sign =? ch "+" then (false, rest')
              else (false, rest)
          | [] => (false, rest)
          end in
        match span_digits rest1 with
        | ([], _) => None
        | (digits, after) =>
            let e := Z.of_N (digits_value digits) in
            Some (if minus then (- e)%Z else e, after)
        end
      else Some (0%Z, s)
  | [] => Some (0%Z, s)
  end.

(** The digits after an optional minus sign: [0] alone, or a run of digits
    that does not begin with [0]; then fraction and exponent. *)
Definition parse_unsigned (negative : bool) (s : jsstring)
  : option (number * jsstring) :=
  match s with
  | c :: rest =>
      if is_digit c then
        let '(int_digits, s1) :=
          if c =? ch "0" then ([c], rest) else span_digits s in
        match parse_fraction s1 with
        | Some (frac_digits, s2) =>
            match parse_exponent s2 with
            | Some (e, s3) =>
                Some (make_number negative (int_digits ++ frac_digits)
                        (e - Z.of_nat (length frac_digits)),
                      s3)
            | None => None
            end
        | None => None
        end
      else None
  | [] => None
  end.

Definition parse_number (s : jsstring) : option (number * jsstring) :=
  match s with
  | c :: rest =>
      if c =? ch "-" then parse_unsigned true rest else parse_unsigned false s
  | [] => None
  end.

(** [s] without the leading [prefix], when it starts with it. *)
Fixpoint strip_prefix (prefix s : jsstring) : option jsstring :=
  match prefix, s with
  | [], _ => Some s
  | p :: prefix', c :: rest =>
      if c =? p then strip_prefix prefix' rest else None
  | _ :: _, [] => None
  end.

(** [obj[key] = v]: a repeated key keeps its place and takes the new
    value. *)
Fixpoint set_prop (key : jsstring) (v : value)
    (props : list (jsstring * value)) : list (jsstring * value) :=
  match props with
  | [] => [(key, v)]
  | (k, old) :: rest =>
      if decide (k = key) then (k, v) :: rest
      else (k, old) :: set_prop key v rest
  end.

Definition of_option {A} (r : option (A * jsstring)) (f : A -> value)
  : presult value :=
  match r with
  | Some (a, rest) => POk (f a) rest
  | None => PError
  end.

(** One JSON value at the head of [s] (white space already skipped);
    [parse_elements] reads the elements of an array after its first
    bracket, [parse_members] the members of an object. *)
Fixpoint parse_value (fuel : nat) (s : jsstring) : presult value :=
  match fuel with
  | O => PFuel
  | S fuel =>
      match s with
      | [] => PError
      | c :: rest =>
          if c =? ch "{" then
            match skip_ws rest with
            | c' :: rest' =>
                if c' =? ch "}" then POk (VObject []) rest'
                else parse_members fuel [] (skip_ws rest)
            | [] => PError
            end
          else if c =? ch "[" then
            match skip_ws rest with
            | c' :: rest' =>
                if c' =? ch "]" then POk (VArray []) rest'
                else parse_elements fuel [] (skip_ws rest)
            | [] => PError
            end
          else if c =? 34 then of_option (parse_string_chars rest) VString
          else if c =? ch "t" then
            of_option (option_map (pair tt) (strip_prefix (js "true") s))
              (fun _ => VBool true)
          else if c =? ch "f" then
            of_option (option_map (pair tt) (strip_prefix (js "false") s))
              (fun _ => VBool false)
          else if c =? ch "n" then
            of_option (option_map (pair tt) (strip_prefix (js "null") s))
              (fun _ => VNull)
          else of_option (parse_number s) VNumber
      end
  end
with parse_elements (fuel : nat) (acc : list value) (s : jsstring)
  : presult value :=
  match fuel with
  | O => PFuel
  | S fuel =>
      match parse_value fuel s with
      | POk v after =>
          match skip_ws after with
          | c :: rest =>
              if c =? ch "," then
                parse_elements fuel (acc ++ [v]) (skip_ws rest)
              else if c =? ch "]" then POk (VArray (acc ++ [v])) rest
              else PError
          | [] => PError
          end
      | PError => PError
      | PFuel => PFuel
      end
  end
with parse_members (fuel : nat) (acc : list (jsstring * value))
    (s : jsstring) : presult value :=
  match fuel with
  | O => PFuel
  | S fuel =>
      match s with
      | c :: rest =>
          if c =? 34 then
            match parse_string_chars rest with
            | Some (key, after_key) =>
                match skip_ws after_key with
                | colon :: rest1 =>
                    if colon =? ch ":" then
                      match parse_value fuel (skip_ws rest1) with
                      | POk v after =>
                          match skip_ws after with
                          | c' :: rest2 =>
                              if c' =? ch "," then
                                parse_members fuel (set_prop key v acc)
                                  (skip_ws rest2)
                              else if c' =? ch "}" then
                                POk (VObject (set_prop key v acc)) rest2
                              else PError
                          | [] => PError
                          end
                      | PError => PError
                      | PFuel => PFuel
                      end
                    else PError
                | [] => PError
                end
            | None => PError
            end
          else PError
      | [] => PError
      end
  end.

(** A successful parsing function leaves less text than it was given. *)
Definition shrinks (r : presult value) (s : jsstring) : Prop :=
  match r with
  | POk _ rest => (length rest < length s)%nat
  | PError | PFuel => True
  end.

(** Recursion budget that suffices for a text of the given length. *)
Definition enough_fuel (s : jsstring) : nat := S (2 * length s).

(** [JSON.parse(text)]: the value the whole text denotes, or a
    [SyntaxError]. *)
Definition JSON_parse (text : jsstring) : completion value :=
  match parse_value (enough_fuel text) (skip_ws text) with
  | POk v rest =>
      match skip_ws rest with
      | [] => Normal v
      | _ :: _ => Throw SyntaxError
      end
  | PError | PFuel => Throw SyntaxError
  end.

End Json.
Import Json.

(** ** The response normalizer *)

(** A JSON text written with an apostrophe for each double quote. *)
Definition json_text (s : string) : jsstring :=
  List.map (fun c => if c =? ch "'" then 34 else c) (js s).
Arguments json_text s%_string.

(** The text from the first opening brace on, when there is one. *)
Fixpoint from_first_open (s : jsstring) : option jsstring :=
  match s with
  | [] => None
  | c :: rest => if c =? ch "{" then Some s else from_first_open rest
  end.

(** The longest prefix that ends with a closing brace, when there is one. *)
Fixpoint through_last_close (s : jsstring) : option jsstring :=
  match s with
  | [] => None
  | c :: rest =>
      match through_last_close rest with
      | Some prefix => Some (c :: prefix)
      | None => if c =? ch "}" then Some [c] else None
      end
  end.

(** [s.match(/\{[\s\S]*\}/)]: the match starts at the first opening brace
    and, the star being greedy, runs to the last closing brace after it. *)
Definition match_braces (s : jsstring) : option jsstring :=
  match from_first_open s with
  | Some (open :: rest) =>
      match through_last_close rest with
      | Some body => Some (open :: body)
      | None => None
      end
  | _ => None
  end.

(** [try { body } catch { handler }] *)
Definition try_catch {A} (body : completion A) (handler : completion A)
  : completion A :=
  match body with
  | Normal a => Normal a
  | Throw _ => handler
  end.

Definition parseAgentResult (result : value) : completion value :=
  if negb (truthy result) then Normal VNull
  else if decide (typeof result = js "object") then Normal result
  else if decide (typeof result = js "string") then
    match result with
    | VString text =>
        try_catch (JSON_parse text)
          (match match_braces text with
           | Some jsonMatch =>
               try_catch (JSON_parse jsonMatch) (Normal VNull)
           | None => Normal VNull
           end)
    | _ => Normal VNull
    end
  else Normal VNull.

(** ** [JSON.stringify] of the settings *)

Definition hex_digit (n : N) : N := if n <? 10 then 48 + n else 87 + n.

(** [\uXXXX] with lower-case digits. *)
Definition unicode_escape (c : N) : jsstring :=
  js "\u" ++ [hex_digit (c / 4096); hex_digit ((c / 256) mod 16);
              hex_digit ((c / 16) mod 16); hex_digit (c mod 16)].

Definition is_high_surrogate (c : N) : bool := (55296 <=? c) && (c <=? 56319).
Definition is_low_surrogate (c : N) : bool := (56320 <=? c) && (c <=? 57343).

(** The inside of a quoted JSON string: quote, backslash and control
    characters are escaped, and so is a surrogate that is not part of a
    pair. *)
Fixpoint quote_chars (s : jsstring) : jsstring :=
  match s with
  | [] => []
  | c :: rest =>
      if c =? 8 then js "\b" ++ quote_chars rest
      else if c =? 9 then js "\t" ++ quote_chars rest
      else if c =? 10 then js "\n" ++ quote_chars rest
      else if c =? 12 then js "\f" ++ quote_chars rest
      else if c =? 13 then js "\r" ++ quote_chars rest
      else if c =? 34 then [ch "\"; 34] ++ quote_chars rest
      else if c =? ch "\" then js "\\" ++ quote_chars rest
      else if c <? 32 then unicode_escape c ++ quote_chars rest
      else if is_high_surrogate c then
        match rest with
        | d :: rest' =>
            if is_low_surrogate d then c :: d :: quote_chars rest'
            else unicode_escape c ++ quote_chars rest
        | [] => unicode_escape c
        end
      else if is_low_surrogate c then unicode_escape c ++ quote_chars rest
      else c :: quote_chars rest
  end.

Definition quoted (s : jsstring) : jsstring := [34] ++ quote_chars s ++ [34].

Definition json_bool (b : bool) : jsstring :=
  if b then js "true" else js "false".

(** [JSON.stringify(settings)]: the fields in the order of the record. *)
Definition JSON_stringify (settings : AlertSettings) : jsstring :=
  js "{"
  ++ quoted (js "recipientEmails") ++ js ":["
  ++ join (js ",") (List.map quoted (recipientEmails settings)) ++ js "],"
  ++ quoted (js "frequency") ++ js ":"
  ++ quoted (frequency_string (frequency settings)) ++ js ","
  ++ quoted (js "triggerTime") ++ js ":"
  ++ quoted (triggerTime settings) ++ js ","
  ++ quoted (js "timezone") ++ js ":" ++ quoted (timezone settings) ++ js ","
  ++ quoted (js "thresholdEnabled") ++ js ":"
  ++ json_bool (thresholdEnabled settings) ++ js ","
  ++ quoted (js "thresholdAbove") ++ js ":"
  ++ quoted (thresholdAbove settings) ++ js ","
  ++ quoted (js "thresholdBelow") ++ js ":"
  ++ quoted (thresholdBelow settings) ++ js ","
  ++ quoted (js "unit") ++ js ":" ++ quoted (unit_string (unit settings))
  ++ js "}".

(** ** The recipient editor of the settings tab *)

(** The tab's view of the settings and the text typed in the e-mail field. *)
Record SettingsTab := {
  tab_settings : AlertSettings;
  emailInput : jsstring;
}.

Definition addEmail (tab : SettingsTab) : SettingsTab :=
  let settings := tab_settings tab in
  let email := trim (emailInput tab) in
  if negb (nonempty email) then tab
  else
    {| tab_settings :=
         if includes_char (ch "@") email
            && negb (bool_decide (email ∈ recipientEmails settings))
         then with_recipientEmails settings (recipientEmails settings ++ [email])
         else settings;
       emailInput := [] |}.

Definition removeEmail (email : jsstring) (tab : SettingsTab) : SettingsTab :=
  let settings := tab_settings tab in
  {| tab_settings :=
       with_recipientEmails settings
         (filter (fun e => e ≠ email) (recipientEmails settings));
     emailInput := emailInput tab |}.

(** ** The scheduler and the agent, as the page sees them *)

Module Scheduler.

(** Modelled from the spec: the [Schedule] record of the scheduler library,
    with the fields the page reads. *)
Record Schedule := {
  id : jsstring;
  is_active : bool;
  cron_expression : jsstring;
  next_run_time : option jsstring;
  last_run_at : option jsstring;
}.

(** Modelled from the spec: what a scheduler call resolves to,
    [{success, schedule?, error?}]. *)
Record Result := {
  success : bool;
  schedule : option Schedule;
  error : option jsstring;
}.

(** The argument of [createSchedule]. *)
Record CreateParams := {
  agent_id : jsstring;
  new_cron_expression : jsstring;
  message : jsstring;
  timezone : jsstring;
}.

End Scheduler.

Module ExecutionLog.

(** One run of the history, with the fields of the page's sample logs; the
    page only stores the list it receives. *)
Record t := {
  id : jsstring;
  schedule_id : jsstring;
  agent_id : jsstring;
  user_id : jsstring;
  session_id : jsstring;
  executed_at : jsstring;
  attempt : N;
  max_attempts : N;
  success : bool;
  payload_message : jsstring;
  response_status : N;
  response_output : jsstring;
  error_message : option jsstring;
}.

End ExecutionLog.

Module Agent.

(** Modelled from the spec: what [callAIAgent] resolves to,
    [{success, session_id?, response?: {result}, error?}]; [response] holds
    the [result] of the response object when there is one. *)
Record Response := {
  success : bool;
  session_id : option jsstring;
  response : option value;
  error : option jsstring;
}.

End Agent.

(** The calls the handlers make: each resolves to a value or rejects, as the
    outside decides. *)
Record Services := {
  callAIAgent : jsstring -> jsstring -> completion (option Agent.Response);
  getSchedule : jsstring -> completion Scheduler.Result;
  pauseSchedule : jsstring -> completion Scheduler.Result;
  resumeSchedule : jsstring -> completion Scheduler.Result;
  deleteSchedule : jsstring -> completion Scheduler.Result;
  createSchedule : Scheduler.CreateParams -> completion Scheduler.Result;
}.

(** ** Constants *)

Definition MANAGER_AGENT_ID : jsstring := js "6997285ac4e47cc7968fd581".
Definition INITIAL_SCHEDULE_ID : jsstring := js "69972860399dfadeac37b79a".
Definition STORAGE_KEY : jsstring := js "gold_alert_settings".
Definition SCHEDULE_ID_KEY : jsstring := js "gold_alert_schedule_id".

(** ** The state of the page *)

Inductive Tab := dashboard | settings_tab.
Inductive NotificationType := success | error.

Record Notification := {
  type : NotificationType;
  message : jsstring;
}.

Record PageState := {
  activeTab : Tab;
  settings : AlertSettings;
  schedule : option Scheduler.Schedule;
  scheduleLoading : bool;
  logs : list ExecutionLog.t;
  logsLoading : bool;
  lastResult : value;
  checkNowLoading : bool;
  saving : bool;
  notification : option Notification;
  sampleMode : bool;
  scheduleId : jsstring;
  sessionId : option jsstring;
  activeAgentId : option jsstring;
}.

Definition initial_page : PageState := {|
  activeTab := dashboard;
  settings := DEFAULT_SETTINGS;
  schedule := None;
  scheduleLoading := false;
  logs := [];
  logsLoading := false;
  lastResult := VNull;
  checkNowLoading := false;
  saving := false;
  notification := None;
  sampleMode := false;
  scheduleId := INITIAL_SCHEDULE_ID;
  sessionId := None;
  activeAgentId := None;
|}.

(** What a handler does to the outside, in the order it does it. *)
Inductive Effect :=
| SetItem (key item : jsstring)
| CallAgent (message agent_id : jsstring)
| GetSchedule (id : jsstring)
| PauseSchedule (id : jsstring)
| ResumeSchedule (id : jsstring)
| DeleteSchedule (id : jsstring)
| CreateSchedule (params : Scheduler.CreateParams).

(** Everything a handler can change: the React state, the processing flag
    of the activity stream, local storage (absent when there is no
    [window]) and the record of its effects, oldest first. *)
Record World := {
  page : PageState;
  isProcessing : bool;
  localStorage : option (gmap jsstring jsstring);
  effects : list Effect;
}.

(** Record updates, one for each piece of state a handler sets. *)

Definition with_schedule (x : option Scheduler.Schedule) (p : PageState) : PageState := {|
  activeTab := activeTab p;
  settings := settings p;
  schedule := x;
  scheduleLoading := scheduleLoading p;
  logs := logs p;
  logsLoading := logsLoading p;
  lastResult := lastResult p;
  checkNowLoading := checkNowLoading p;
  saving := saving p;
  notification := notification p;
  sampleMode := sampleMode p;
  scheduleId := scheduleId p;
  sessionId := sessionId p;
  activeAgentId := activeAgentId p;
|}.

Definition with_scheduleLoading (x : bool) (p : PageState) : PageState := {|
  activeTab := activeTab p;
  settings := settings p;
  schedule := schedule p;
  scheduleLoading := x;
  logs := logs p;
  logsLoading := logsLoading p;
  lastResult := lastResult p;
  checkNowLoading := checkNowLoading p;
  saving := saving p;
  notification := notification p;
  sampleMode := sampleMode p;
  scheduleId := scheduleId p;
  sessionId := sessionId p;
  activeAgentId := activeAgentId p;
|}.

Definition with_lastResult (x : value) (p : PageState) : PageState := {|
  activeTab := activeTab p;
  settings := settings p;
  schedule := schedule p;
  scheduleLoading := scheduleLoading p;
  logs := logs p;
  logsLoading := logsLoading p;
  lastResult := x;
  checkNowLoading := checkNowLoading p;
  saving := saving p;
  notification := notification p;
  sampleMode := sampleMode p;
  scheduleId := scheduleId p;
  sessionId := sessionId p;
  activeAgentId := activeAgentId p;
|}.

Definition with_checkNowLoading (x : bool) (p : PageState) : PageState := {|
  activeTab := activeTab p;
  settings := settings p;
  schedule := schedule p;
  scheduleLoading := scheduleLoading p;
  logs := logs p;
  logsLoading := logsLoading p;
  lastResult := lastResult p;
  checkNowLoading := x;
  saving := saving p;
  notification := notification p;
  sampleMode := sampleMode p;
  scheduleId := scheduleId p;
  sessionId := sessionId p;
  activeAgentId := activeAgentId p;
|}.

Definition with_saving (x : bool) (p : PageState) : PageState := {|
  activeTab := activeTab p;
  settings := settings p;
  schedule := schedule p;
  scheduleLoading := scheduleLoading p;
  logs := logs p;
  logsLoading := logsLoading p;
  lastResult := lastResult p;
  checkNowLoading := checkNowLoading p;
  saving := x;
  notification := notification p;
  sampleMode := sampleMode p;
  scheduleId := scheduleId p;
  sessionId := sessionId p;
  activeAgentId := activeAgentId p;
|}.

Definition with_notification (x : option Notification) (p : PageState) : PageState := {|
  activeTab := activeTab p;
  settings := settings p;
  schedule := schedule p;
  scheduleLoading := scheduleLoading p;
  logs := logs p;
  logsLoading := logsLoading p;
  lastResult := lastResult p;
  checkNowLoading := checkNowLoading p;
  saving := saving p;
  notification := x;
  sampleMode := sampleMode p;
  scheduleId := scheduleId p;
  sessionId := sessionId p;
  activeAgentId := activeAgentId p;
|}.

Definition with_scheduleId (x : jsstring) (p : PageState) : PageState := {|
  activeTab := activeTab p;
  settings := settings p;
  schedule := schedule p;
  scheduleLoading := scheduleLoading p;
  logs := logs p;
  logsLoading := logsLoading p;
  lastResult := lastResult p;
  checkNowLoading := checkNowLoading p;
  saving := saving p;
  notification := notification p;
  sampleMode := sampleMode p;
  scheduleId := x;
  sessionId := sessionId p;
  activeAgentId := activeAgentId p;
|}.

Definition with_sessionId (x : option jsstring) (p : PageState) : PageState := {|
  activeTab := activeTab p;
  settings := settings p;
  schedule := schedule p;
  scheduleLoading := scheduleLoading p;
  logs := logs p;
  logsLoading := logsLoading p;
  lastResult := lastResult p;
  checkNowLoading := checkNowLoading p;
  saving := saving p;
  notification := notification p;
  sampleMode := sampleMode p;
  scheduleId := scheduleId p;
  sessionId := x;
  activeAgentId := activeAgentId p;
|}.

Definition with_activeAgentId (x : option jsstring) (p : PageState) : PageState := {|
  activeTab := activeTab p;
  settings := settings p;
  schedule := schedule p;
  scheduleLoading := scheduleLoading p;
  logs := logs p;
  logsLoading := logsLoading p;
  lastResult := lastResult p;
  checkNowLoading := checkNowLoading p;
  saving := saving p;
  notification := notification p;
  sampleMode := sampleMode p;
  scheduleId := scheduleId p;
  sessionId := sessionId p;
  activeAgentId := x;
|}.

Definition with_page (p : PageState) (w : World) : World := {|
  page := p;
  isProcessing := isProcessing w;
  localStorage := localStorage w;
  effects := effects w;
|}.

Definition with_isProcessing (b : bool) (w : World) : World := {|
  page := page w;
  isProcessing := b;
  localStorage := localStorage w;
  effects := effects w;
|}.

Definition with_localStorage (store : option (gmap jsstring jsstring))
    (w : World) : World := {|
  page := page w;
  isProcessing := isProcessing w;
  localStorage := store;
  effects := effects w;
|}.

Definition with_effect (e : Effect) (w : World) : World := {|
  page := page w;
  isProcessing := isProcessing w;
  localStorage := localStorage w;
  effects := effects w ++ [e];
|}.

(** ** Computations with state and exceptions *)

(** A computation over a state [S]: it ends normally or throws, and leaves
    a state behind either way. *)
Definition action (S A : Type) : Type := S -> completion A * S.

#[global] Instance action_ret {S} : MRet (action S) :=
  fun A a s => (Normal a, s).

#[global] Instance action_bind {S} : MBind (action S) :=
  fun A B f m s =>
    match m s with
    | (Normal a, s') => f a s'
    | (Throw e, s') => (Throw e, s')
    end.

(** [try { body } catch { handler }] *)
Definition try_action {S A} (body handler : action S A) : action S A :=
  fun s =>
    match body s with
    | (Normal a, s') => (Normal a, s')
    | (Throw _, s') => handler s'
    end.

(** A computation without effects. *)
Definition lift {S A} (c : completion A) : action S A := fun s => (c, s).

Definition modify {S} (f : S -> S) : action S () :=
  fun s => (Normal tt, f s).

(** [await call]: the call is recorded and ends as the outside decides. *)
Definition await {A} (e : Effect) (outcome : completion A) : action World A :=
  fun w => (outcome, with_effect e w).

(** *** The state setters *)

Definition set_page (f : PageState -> PageState) : action World () :=
  modify (fun w => with_page (f (page w)) w).

Definition setSchedule x := set_page (with_schedule x).
Definition setScheduleLoading x := set_page (with_scheduleLoading x).
Definition setLastResult x := set_page (with_lastResult x).
Definition setCheckNowLoading x := set_page (with_checkNowLoading x).
Definition setSaving x := set_page (with_saving x).
Definition setNotification x := set_page (with_notification (Some x)).
Definition setScheduleId x := set_page (with_scheduleId x).
Definition setSessionId x := set_page (with_sessionId x).
Definition setActiveAgentId x := set_page (with_activeAgentId x).

(** [agentActivity.setProcessing] *)
Definition setProcessing (b : bool) : action World () :=
  modify (with_isProcessing b).

(** *** Local storage *)

(** [localStorage.setItem(key, item)], reached only where there is a
    [window]; the store is a plain key-value store and the call always
    succeeds. *)
Definition setItem (key item : jsstring) : action World () :=
  fun w =>
    match localStorage w with
    | Some store =>
        (Normal tt,
         with_effect (SetItem key item)
           (with_localStorage (Some (<[key := item]> store)) w))
    | None => (Normal tt, w)
    end.

Definition saveSettings (settings : AlertSettings) : action World () :=
  setItem STORAGE_KEY (JSON_stringify settings).

Definition saveScheduleId (id : jsstring) : action World () :=
  setItem SCHEDULE_ID_KEY id.

(** [localStorage.getItem(SCHEDULE_ID_KEY) || INITIAL_SCHEDULE_ID] *)
Definition loadScheduleId (w : World) : jsstring :=
  match localStorage w with
  | Some store =>
      match store !! SCHEDULE_ID_KEY with
      | Some stored => if nonempty stored then stored else INITIAL_SCHEDULE_ID
      | None => INITIAL_SCHEDULE_ID
      end
  | None => INITIAL_SCHEDULE_ID
  end.

(** ** The handlers

    A handler reads the state of the render it was created in ([render])
    and writes through the setters. *)

Definition handleToggleSchedule (svc : Services) (render : PageState)
  : action World () :=
  match schedule render with
  | None => mret tt
  | Some current =>
      setScheduleLoading true;;
      try_action
        ((if Scheduler.is_active current
          then await (PauseSchedule (scheduleId render))
                 (pauseSchedule svc (scheduleId render))
          else await (ResumeSchedule (scheduleId render))
                 (resumeSchedule svc (scheduleId render)));;
         res ← await (GetSchedule (scheduleId render))
                 (getSchedule svc (scheduleId render));
         (match Scheduler.success res, Scheduler.schedule res with
          | true, Some fresh => setSchedule (Some fresh)
          | _, _ => mret tt
          end);;
         setNotification
           {| type := success;
              message := if Scheduler.is_active current
                         then js "Schedule paused"
                         else js "Schedule resumed" |})
        (setNotification
           {| type := error;
              message := js "Failed to update schedule status" |});;
      setScheduleLoading false
  end.

Definition handleCheckNow (svc : Services) (render : PageState)
  : action World () :=
  setCheckNowLoading true;;
  setActiveAgentId (Some MANAGER_AGENT_ID);;
  setProcessing true;;
  try_action
    (let message := composeAgentMessage (settings render) in
     result ← await (CallAgent message MANAGER_AGENT_ID)
                (callAIAgent svc message MANAGER_AGENT_ID);
     (match result ≫= Agent.session_id with
      | Some session => if nonempty session
                        then setSessionId (Some session)
                        else mret tt
      | None => mret tt
      end);;
     if from_option Agent.success false result then
       parsed ← lift (parseAgentResult
                        (from_option id VUndefined
                           (result ≫= Agent.response)));
       if truthy parsed then
         setLastResult parsed;;
         setNotification
           {| type := success;
              message := js "Gold price check completed successfully" |}
       else
         setNotification
           {| type := success;
              message := js "Agent responded. Check results below." |}
     else
       setNotification
         {| type := error;
            message := nullish (result ≫= Agent.error)
                         (js "Failed to check gold price") |})
    (setNotification
       {| type := error;
          message := js "Network error while checking gold price" |});;
  setCheckNowLoading false;;
  setActiveAgentId None;;
  setProcessing false.

Definition handleSaveSettings (svc : Services) (render : PageState)
  : action World () :=
  setSaving true;;
  try_action
    (saveSettings (settings render);;
     let newCron :=
       buildCron (frequency_string (frequency (settings render)))
         (triggerTime (settings render)) in
     let message := composeAgentMessage (settings render) in
     try_action
       (await (DeleteSchedule (scheduleId render))
          (deleteSchedule svc (scheduleId render));;
        mret tt)
       (mret tt);;
     let params :=
       {| Scheduler.agent_id := MANAGER_AGENT_ID;
          Scheduler.new_cron_expression := newCron;
          Scheduler.message := message;
          Scheduler.timezone := timezone (settings render) |} in
     createRes ← await (CreateSchedule params) (createSchedule svc params);
     match Scheduler.success createRes, Scheduler.schedule createRes with
     | true, Some created =>
         let newId := Scheduler.id created in
         setScheduleId newId;;
         saveScheduleId newId;;
         setSchedule (Some created);;
         setNotification
           {| type := success;
              message := js "Configuration saved and schedule updated" |}
     | _, _ =>
         setNotification
           {| type := error;
              message := nullish (Scheduler.error createRes)
                           (js "Failed to update schedule") |}
     end)
    (setNotification
       {| type := error; message := js "Error saving configuration" |});;
  setSaving false.

(** A handler run on a world: it reads the page state of that moment. *)
Definition run (handler : PageState -> action World ()) (w : World)
  : completion () * World :=
  handler (page w) w.

(** Unfolds one handler down to the states it leaves. *)
Ltac run_handler :=
  cbv zeta;
  unfold run, handleCheckNow, handleToggleSchedule, handleSaveSettings,
    saveSettings, saveScheduleId, setItem, try_action, await, lift,
    setSchedule, setScheduleLoading, setLastResult, setCheckNowLoading,
    setSaving, setNotification, setScheduleId, setSessionId,
    setActiveAgentId, setProcessing, set_page, modify,
    mbind, mret, action_bind, action_ret;
  cbn.

(** ** The resilient call gateway *)

Module Gateway.

(** What the wrapper reads of a [fetch] response, and its body. *)
Record Response := {
  redirected : bool;
  url : jsstring;
  status : N;
  body : jsstring;
}.

Inductive BrowserEffect :=
| Fetch (args : list value)
| Navigate (target : jsstring)
| Confirm (question : jsstring)
| Reload.

(** The window: its location and what was done to it, oldest first. *)
Record Browser := {
  location_href : jsstring;
  log : list BrowserEffect;
}.

(** The outside: how a request ends, and what the user answers to a
    question. *)
Record Env := {
  fetch : list value -> completion Response;
  confirm : jsstring -> bool;
}.

Definition record (e : BrowserEffect) (b : Browser) : Browser :=
  {| location_href := location_href b; log := log b ++ [e] |}.

Definition await_fetch (env : Env) (args : list value)
  : action Browser Response :=
  fun b => (fetch env args, record (Fetch args) b).

(** [window.location.href = target] *)
Definition set_location_href (target : jsstring) : action Browser () :=
  modify (fun b =>
    {| location_href := target; log := log b ++ [Navigate target] |}).

Definition ask (env : Env) (question : jsstring) : action Browser bool :=
  fun b => (Normal (confirm env question), record (Confirm question) b).

(** [window.location.reload()] *)
Definition reload : action Browser () := modify (record Reload).

(** What a question leaves in the log: the question, and the reload when
    the user accepts it. *)
Definition asked (env : Env) (question : jsstring) : list BrowserEffect :=
  Confirm question :: (if confirm env question then [Reload] else []).

Definition BACKEND_ERROR_QUESTION : jsstring :=
  js "Backend is not responding." ++ [10; 10]
  ++ js ".Click OK to refresh, if you are seeing this repeatedly ask Architect to fix errors in the app.".

Definition NETWORK_ERROR_QUESTION : jsstring :=
  js "Cannot connect to backend." ++ [10; 10]
  ++ js "Click OK to refresh, if you are seeing this repeatedly ask Architect to fix errors in the app.".

(** The wrapper returns the response, or nothing ([None] for
    [undefined]). *)
Definition fetchWrapper (env : Env) (args : list value)
  : action Browser (option Response) :=
  try_action
    (response ← await_fetch env args;
     if redirected response then
       set_location_href (url response);;
       mret None
     else if 500 <=? status response then
       shouldRefresh ← ask env BACKEND_ERROR_QUESTION;
       (if shouldRefresh : bool then reload else mret tt);;
       mret None
     else mret (Some response))
    (shouldRefresh ← ask env NETWORK_ERROR_QUESTION;
     (if shouldRefresh : bool then reload else mret tt);;
     mret None).

End Gateway.

(** ** The span the specification describes *)

(** The first balanced brace span: from the first opening brace to the
    closing brace that brings the nesting depth back to zero. This follows
    the wording of the specification, to be compared with [match_braces]. *)
Fixpoint balanced_prefix (depth : nat) (s : jsstring) : option jsstring :=
  match s with
  | [] => None
  | c :: rest =>
      if c =? ch "{" then option_map (cons c) (balanced_prefix (S depth) rest)
      else if c =? ch "}" then
        match depth with
        | O => None
        | S O => Some [c]
        | S depth' => option_map (cons c) (balanced_prefix depth' rest)
        end
      else option_map (cons c) (balanced_prefix depth rest)
  end.

Definition first_balanced_span (s : jsstring) : option jsstring :=
  match from_first_open s with
  | Some span => balanced_prefix 0 span
  | None => None
  end.

(** The normalizer of a string as the specification words it: a direct
    parse, then a parse of the first balanced span, then null. *)
Definition normalize_as_specified (text : jsstring) : completion value :=
  try_catch (JSON_parse text)
    (match first_balanced_span text with
     | Some span => try_catch (JSON_parse span) (Normal VNull)
     | None => Normal VNull
     end).

(** The schedule a scheduler call handed back ([res.success &&
    res.schedule]): the one of a result that reports success and carries a
    schedule. *)
Definition returned_schedule (outcome : completion Scheduler.Result)
  : option Scheduler.Schedule :=
  match outcome with
  | Normal res =>
      if Scheduler.success res then Scheduler.schedule res else None
  | Throw _ => None
  end.

(** ** Scenarios *)

Module Scenario.

Definition acknowledged : Scheduler.Result :=
  {| Scheduler.success := true;
     Scheduler.schedule := None;
     Scheduler.error := None |}.

Definition refused : Scheduler.Result :=
  {| Scheduler.success := false;
     Scheduler.schedule := None;
     Scheduler.error := Some (js "schedule limit reached") |}.

Definition active_schedule : Scheduler.Schedule :=
  {| Scheduler.id := INITIAL_SCHEDULE_ID;
     Scheduler.is_active := true;
     Scheduler.cron_expression := js "00 09 * * *";
     Scheduler.next_run_time := None;
     Scheduler.last_run_at := None |}.

Definition new_schedule : Scheduler.Schedule :=
  {| Scheduler.id := js "6a01f3c2";
     Scheduler.is_active := true;
     Scheduler.cron_expression := js "00 09 * * *";
     Scheduler.next_run_time := None;
     Scheduler.last_run_at := None |}.

Definition created : Scheduler.Result :=
  {| Scheduler.success := true;
     Scheduler.schedule := Some new_schedule;
     Scheduler.error := None |}.

(** Services whose pause, get and create calls end as given; resume is
    acknowledged, delete rejects, the agent returns nothing. *)
Definition services (pause get create : completion Scheduler.Result)
  : Services :=
  {| callAIAgent := fun _ _ => Normal None;
     getSchedule := fun _ => get;
     pauseSchedule := fun _ => pause;
     resumeSchedule := fun _ => Normal acknowledged;
     deleteSchedule := fun _ => Throw (Rejection (js "not found"));
     createSchedule := fun _ => create |}.

(** A freshly loaded page that shows the active schedule, with empty
    local storage. *)
Definition loaded : World :=
  {| page := with_schedule (Some active_schedule) initial_page;
     isProcessing := false;
     localStorage := Some ∅;
     effects := [] |}.

(** A response that was redirected to a failing login page. *)
Definition redirected_error : Gateway.Response :=
  {| Gateway.redirected := true;
     Gateway.url := js "/login";
     Gateway.status := 500;
     Gateway.body := [] |}.

Definition browser : Gateway.Browser :=
  {| Gateway.location_href := js "/"; Gateway.log := [] |}.

End Scenario.

(** ** The rest of the page: loading the settings, refreshing the data *)

(** *** The settings as a JavaScript object *)

Definition settings_props (s : AlertSettings) : list (jsstring * value) :=
  [(js "recipientEmails", VArray (List.map VString (recipientEmails s)));
   (js "frequency", VString (frequency_string (frequency s)));
   (js "triggerTime", VString (triggerTime s));
   (js "timezone", VString (timezone s));
   (js "thresholdEnabled", VBool (thresholdEnabled s));
   (js "thresholdAbove", VString (thresholdAbove s));
   (js "thresholdBelow", VString (thresholdBelow s));
   (js "unit", VString (unit_string (unit s)))].

Definition settings_value (s : AlertSettings) : value :=
  VObject (settings_props s).

(** [props[key]] for an own property: the value, or nothing. *)
Fixpoint get_prop (key : jsstring) (props : list (jsstring * value))
  : option value :=
  match props with
  | [] => None
  | (k, v) :: rest => if decide (k = key) then Some v else get_prop key rest
  end.

(** The key of an array index: its decimal digits. *)
Definition index_key (i : nat) : jsstring :=
  js (NilZero.string_of_uint (Nat.to_uint i)).

(** The own enumerable properties a spread copies: the properties of an
    object, the elements of an array and the code units of a string under
    their indices, nothing for any other value. *)
Definition own_properties (v : value) : list (jsstring * value) :=
  match v with
  | VObject props => props
  | VArray items => imap (fun i item => (index_key i, item)) items
  | VString s => imap (fun i c => (index_key i, VString [c])) s
  | _ => []
  end.

(** [{ ...target, ...source }]: each property of the source is set on the
    target, in order. The list keeps the order of insertion (JavaScript
    enumerates keys that are array indices first). *)
Definition spread (target : list (jsstring * value)) (source : value)
  : list (jsstring * value) :=
  fold_left (fun acc kv => set_prop kv.1 kv.2 acc) (own_properties source)
    target.

(** [loadSettings()]: the stored settings laid over the defaults, or the
    defaults when there is no window, nothing stored, or the stored text
    does not parse. The result is the object as JavaScript holds it. *)
Definition loadSettings (w : World) : completion value :=
  match localStorage w with
  | None => Normal (settings_value DEFAULT_SETTINGS)
  | Some store =>
      try_catch
        (match store !! STORAGE_KEY with
         | None => Normal (settings_value DEFAULT_SETTINGS)
         | Some raw =>
             if negb (nonempty raw) then Normal (settings_value DEFAULT_SETTINGS)
             else
               match JSON_parse raw with
               | Normal parsed =>
                   Normal (VObject
                             (spread (settings_props DEFAULT_SETTINGS) parsed))
               | Throw e => Throw e
               end
         end)
        (Normal (settings_value DEFAULT_SETTINGS))
  end.

(** *** Plain JSON data *)

(** A value built of null, booleans, numbers other than NaN, strings,
    arrays and objects only, no object holding a key twice. A number may be
    an infinity: a decimal beyond the range of the doubles stands for one,
    as [1e400] does. *)
Fixpoint json_data (v : value) : bool :=
  match v with
  | VNull | VBool _ | VString _ => true
  | VNumber NaN => false
  | VNumber (Infinity _) | VNumber (Decimal _ _ _) => true
  | VArray items => forallb json_data items
  | VObject props =>
      forallb (fun p => json_data p.2) props
      && bool_decide (NoDup (List.map fst props))
  | _ => false
  end.

(** The properties of an object of plain JSON data. *)
Definition props_ok (props : list (jsstring * value)) : Prop :=
  forallb (fun p => json_data p.2) props = true /\ NoDup (List.map fst props).

(** *** Refreshing the schedule and the history *)

Module History.

(** Modelled from the spec: what [getScheduleLogs] resolves to,
    [{success, executions}]; [executions] is absent when the field is not an
    array. *)
Record Result := {
  success : bool;
  executions : option (list ExecutionLog.t);
}.

End History.

Definition with_logs (x : list ExecutionLog.t) (p : PageState) : PageState := {|
  activeTab := activeTab p;
  settings := settings p;
  schedule := schedule p;
  scheduleLoading := scheduleLoading p;
  logs := x;
  logsLoading := logsLoading p;
  lastResult := lastResult p;
  checkNowLoading := checkNowLoading p;
  saving := saving p;
  notification := notification p;
  sampleMode := sampleMode p;
  scheduleId := scheduleId p;
  sessionId := sessionId p;
  activeAgentId := activeAgentId p;
|}.

Definition with_logsLoading (x : bool) (p : PageState) : PageState := {|
  activeTab := activeTab p;
  settings := settings p;
  schedule := schedule p;
  scheduleLoading := scheduleLoading p;
  logs := logs p;
  logsLoading := x;
  lastResult := lastResult p;
  checkNowLoading := checkNowLoading p;
  saving := saving p;
  notification := notification p;
  sampleMode := sampleMode p;
  scheduleId := scheduleId p;
  sessionId := sessionId p;
  activeAgentId := activeAgentId p;
|}.

Definition setLogs x := set_page (with_logs x).
Definition setLogsLoading x := set_page (with_logsLoading x).

Definition fetchScheduleData (svc : Services) (render : PageState)
  : action World () :=
  setScheduleLoading true;;
  try_action
    (res ← await (GetSchedule (scheduleId render))
             (getSchedule svc (scheduleId render));
     match Scheduler.success res, Scheduler.schedule res with
     | true, Some fresh => setSchedule (Some fresh)
     | _, _ => mret tt
     end)
    (mret tt);;
  setScheduleLoading false.

(** The history call is not one of [Services]: it is given here, asked for
    the managed schedule and at most 20 runs, and leaves no entry in
    [effects]. *)
Definition fetchLogs
    (getScheduleLogs : jsstring -> N -> completion History.Result)
    (render : PageState) : action World () :=
  setLogsLoading true;;
  try_action
    (res ← lift (getScheduleLogs (scheduleId render) 20);
     match History.success res, History.executions res with
     | true, Some executions => setLogs executions
     | _, _ => mret tt
     end)
    (mret tt);;
  setLogsLoading false.

(** Unfolds a refresh down to the states it leaves. *)
Ltac run_refresh :=
  cbv zeta;
  unfold fetchScheduleData, fetchLogs, setLogs, setLogsLoading;
  run_handler.

(** *** Recipients as the editor leaves them *)

(** An address with something in it, an [@], and no white space around
    it. *)
Definition well_formed_email (e : jsstring) : Prop :=
  e ≠ [] /\ ch "@" ∈ e /\ trim e = e.

(** * Properties *)

(** ** Strings *)

Section StringFacts.

Lemma split_nonempty sep s : exists piece pieces, split sep s = piece :: pieces.
Proof.
  destruct s as [|c rest]; simpl; [eauto|].
  destruct (c =? sep); [eauto|].
  destruct (split sep rest); eauto.
Qed.

(** Up to the first separator the text is the first piece. *)
Lemma split_first sep piece rest :
  sep ∉ piece -> split sep (piece ++ sep :: rest) = piece :: split sep rest.
Proof.
  induction piece as [|c piece IH]; intros Hsep; simpl.
  - rewrite N.eqb_refl. reflexivity.
  - apply not_elem_of_cons in Hsep as [Hne Hsep].
    destruct (N.eqb_spec c sep) as [->|_]; [congruence|].
    rewrite (IH Hsep). reflexivity.
Qed.

Lemma split_no_separator sep s : sep ∉ s -> split sep s = [s].
Proof.
  induction s as [|c s IH]; intros Hsep; simpl; [reflexivity|].
  apply not_elem_of_cons in Hsep as [Hne Hsep].
  destruct (N.eqb_spec c sep) as [->|_]; [congruence|].
  rewrite (IH Hsep). reflexivity.
Qed.

Lemma includes_char_elem_of c s : includes_char c s = true <-> c ∈ s.
Proof.
  unfold includes_char. rewrite existsb_exists. split.
  - intros (x & Hin & Heq). apply N.eqb_eq in Heq as ->.
    by apply list_elem_of_In.
  - intros Hin. exists c. split; [by apply list_elem_of_In|apply N.eqb_refl].
Qed.

Lemma nonempty_true s : nonempty s = true <-> s ≠ [].
Proof. destruct s; simpl; split; congruence. Qed.

Lemma occurs_in_skip sub before s :
  occurs_in sub s -> occurs_in sub (before ++ s).
Proof.
  intros (b & a & ->). exists (before ++ b), a. by rewrite <- app_assoc.
Qed.

Lemma occurs_in_start sub after : occurs_in sub (sub ++ after).
Proof. by exists [], after. Qed.

Lemma occurs_in_here label text after :
  occurs_in (label ++ text) (label ++ text ++ after).
Proof. exists [], after. simpl. by rewrite <- app_assoc. Qed.

End StringFacts.

(** ** The builtins on examples *)

Section Builtins.

Example trim_example :
  trim (js "  trader@example.com" ++ [10; 160]) = js "trader@example.com".
Proof. vm_compute. reflexivity. Qed.

Example split_examples :
  split (ch ":") (js "09:30") = [js "09"; js "30"]
  /\ split (ch ":") (js "9") = [js "9"]
  /\ split (ch ":") (js ":30") = [[]; js "30"]
  /\ split (ch ":") (js "1:2:3") = [js "1"; js "2"; js "3"].
Proof. repeat split; vm_compute; reflexivity. Qed.

Example JSON_parse_object :
  JSON_parse (json_text " {'a': [1, -0, 1.50e3, true, null], 'a': {'b': 'A\n'}} ")
  = Normal (VObject [(js "a", VObject [(js "b", VString [65; 10])])]).
Proof. vm_compute. reflexivity. Qed.

Example JSON_parse_numbers :
  JSON_parse (js "[0, -0, 15e2, 1.50e3, 0.001, 1e-400]")
  = Normal (VArray [VNumber (Decimal false 0 0); VNumber (Decimal true 0 0);
                    VNumber (Decimal false 15 2); VNumber (Decimal false 15 2);
                    VNumber (Decimal false 1 (-3));
                    VNumber (Decimal false 1 (-400))]).
Proof. vm_compute. reflexivity. Qed.

Example JSON_parse_rejects :
  Forall (fun text => JSON_parse (json_text text) = Throw SyntaxError)
    [""; "01"; "1."; "-"; "1e"; "[1,]"; "{'a':1,}"; "nul"; "1 2"; "'abc";
     "{a:1}"; "[1 2]"; "{'a' 1}"; "{'a':1} {'b':2}"; ".5"; "+1"]%string.
Proof. repeat constructor. Qed.

Example truthy_examples :
  truthy (VNumber (Decimal false 1 (-400))) = false
  /\ truthy (VNumber (Decimal false 1 (-300))) = true
  /\ truthy (VString []) = false
  /\ truthy (VObject []) = true.
Proof. repeat split; vm_compute; reflexivity. Qed.

Example JSON_stringify_default :
  JSON_stringify DEFAULT_SETTINGS
  = json_text "{'recipientEmails':[],'frequency':'daily','triggerTime':'09:00','timezone':'America/New_York','thresholdEnabled':false,'thresholdAbove':'2500','thresholdBelow':'2000','unit':'ounce'}".
Proof. vm_compute. reflexivity. Qed.

Example quoted_escapes :
  quoted ([34; 92; 10; 1] ++ js "a" ++ [55357; 56832; 55357])
  = [34] ++ js "\" ++ [34] ++ js "\\\n\u0001a" ++ [55357; 56832]
    ++ js "\ud83d" ++ [34].
Proof. vm_compute. reflexivity. Qed.

Example match_braces_examples :
  match_braces (json_text "so {'a':1} and {'b':2}.")
  = Some (json_text "{'a':1} and {'b':2}")
  /\ match_braces (js "} then {") = None
  /\ first_balanced_span (json_text "so {'a':{'c':1}} and {'b':2}.")
     = Some (json_text "{'a':{'c':1}}").
Proof. repeat split; vm_compute; reflexivity. Qed.

End Builtins.

(** ** Cron translation *)

Section Cron.

(** With both components present and no further colon, the expression
    repeats them as they were typed. *)
Lemma buildCron_components f h m :
  ch ":" ∉ h -> ch ":" ∉ m ->
  buildCron f (h ++ ch ":" :: m) =
    if decide (f = js "hourly") then m ++ js " * * * *"
    else if decide (f = js "weekly") then m ++ js " " ++ h ++ js " * * 1"
    else m ++ js " " ++ h ++ js " * * *".
Proof.
  intros Hh Hm. unfold buildCron.
  rewrite (split_first _ _ _ Hh), (split_no_separator _ _ Hm). simpl.
  repeat case_decide; subst; try reflexivity; discriminate.
Qed.

(** The hour is never absent, whatever the time string: its fallback is
    never used. *)
Lemma buildCron_hour_present time :
  exists h, split (ch ":") time !! 0%nat = Some h.
Proof. destruct (split_nonempty (ch ":") time) as (h & t & ->). eauto. Qed.

(** Without a colon the minute falls back to [0] and the hour is the whole
    string. *)
Lemma buildCron_minute_default time :
  ch ":" ∉ time ->
  buildCron (js "daily") time = js "0 " ++ time ++ js " * * *".
Proof.
  intros Hc. unfold buildCron. rewrite (split_no_separator _ _ Hc).
  reflexivity.
Qed.

(** A frequency that is none of the three known ones is treated as
    [daily]. *)
Lemma buildCron_unknown_frequency f time :
  f ≠ js "hourly" -> f ≠ js "daily" -> f ≠ js "weekly" ->
  buildCron f time = buildCron (js "daily") time.
Proof.
  intros H1 H2 H3. unfold buildCron.
  repeat case_decide; try congruence; try discriminate.
Qed.

(** C5, as stated: the three equations do not all hold. *)
Lemma buildCron_spec_equations_fail :
  ~ (buildCron (js "hourly") (js "09:30") = js "30 * * * *"
     /\ buildCron (js "daily") (js "09:30") = js "30 9 * * *"
     /\ buildCron (js "weekly") (js "09:30") = js "30 9 * * 1").
Proof. intros (_ & Hdaily & _). vm_compute in Hdaily. discriminate. Qed.

(** C5, amended: for the time [09:30] the hourly expression is
    [30 * * * *], and the daily and weekly expressions keep the hour as it
    was typed, [30 09 * * *] and [30 09 * * 1]. *)
Theorem buildCron_equations :
  buildCron (js "hourly") (js "09:30") = js "30 * * * *"
  /\ buildCron (js "daily") (js "09:30") = js "30 09 * * *"
  /\ buildCron (js "weekly") (js "09:30") = js "30 09 * * 1".
Proof. repeat split; vm_compute; reflexivity. Qed.

(** C6, at the empty time string: the split yields one empty component, so
    the hour is the empty string and not [9]; the expression is [0], two
    spaces and [* * *], and differs from [0 9 * * *]. *)
Theorem buildCron_empty_time :
  split (ch ":") [] = [[]]
  /\ buildCron (js "daily") [] = js "0  * * *"
  /\ buildCron (js "daily") [] ≠ js "0 9 * * *".
Proof. repeat split; vm_compute; [reflexivity..|discriminate]. Qed.

End Cron.

(** ** Message composition *)

Section Compose.

Variables (emails : list jsstring) (f : Frequency) (time tz : jsstring).

(** C8: with no recipient the message contains [no recipients configured],
    on its recipients line; with the threshold enabled, only the upper
    bound set to [2500] and the unit [ounce], the threshold clause reads
    [above $2500/oz] and the message contains it on its threshold line;
    enabled with both bounds empty, the message contains
    [No threshold configured], the text of a disabled threshold, and is
    the very message of the disabled threshold. The message is given in
    full in each case. *)
Theorem composeAgentMessage_clauses :
  let first_line :=
    js "Fetch current gold prices and send an alert email." in
  let recipients :=
    match emails with
    | [] => js "no recipients configured"
    | _ :: _ => join (js ", ") emails
    end in
  (forall enabled above below u,
      let s := {| recipientEmails := []; frequency := f; triggerTime := time;
                  timezone := tz; thresholdEnabled := enabled;
                  thresholdAbove := above; thresholdBelow := below;
                  unit := u |} in
      occurs_in (js "no recipients configured") (composeAgentMessage s)
      /\ composeAgentMessage s =
           first_line ++ [10]
           ++ js "Recipients: no recipients configured" ++ [10]
           ++ js "Threshold: " ++ thresholdLine s ++ [10]
           ++ js "Unit preference: " ++ unit_string u)
  /\ (let s := {| recipientEmails := emails; frequency := f;
                  triggerTime := time; timezone := tz;
                  thresholdEnabled := true; thresholdAbove := js "2500";
                  thresholdBelow := []; unit := ounce |} in
      thresholdLine s = js "Alert when price goes " ++ js "above $2500/oz"
      /\ occurs_in (js "Threshold: Alert when price goes above $2500/oz")
           (composeAgentMessage s)
      /\ occurs_in (js "above $2500/oz") (composeAgentMessage s)
      /\ composeAgentMessage s =
           first_line ++ [10]
           ++ js "Recipients: " ++ recipients ++ [10]
           ++ js "Threshold: Alert when price goes above $2500/oz" ++ [10]
           ++ js "Unit preference: ounce")
  /\ (forall above below u,
         let enabled_unset :=
           {| recipientEmails := emails; frequency := f;
              triggerTime := time; timezone := tz;
              thresholdEnabled := true; thresholdAbove := [];
              thresholdBelow := []; unit := u |} in
         let disabled :=
           {| recipientEmails := emails; frequency := f;
              triggerTime := time; timezone := tz;
              thresholdEnabled := false; thresholdAbove := above;
              thresholdBelow := below; unit := u |} in
         let no_threshold_message :=
           first_line ++ [10]
           ++ js "Recipients: " ++ recipients ++ [10]
           ++ js "Threshold: No threshold configured" ++ [10]
           ++ js "Unit preference: " ++ unit_string u in
         thresholdLine enabled_unset = js "No threshold configured"
         /\ thresholdLine disabled = js "No threshold configured"
         /\ composeAgentMessage enabled_unset = composeAgentMessage disabled
         /\ occurs_in (js "No threshold configured")
              (composeAgentMessage enabled_unset)
         /\ occurs_in (js "No threshold configured")
              (composeAgentMessage disabled)
         /\ occurs_in (js "Threshold: No threshold configured")
              (composeAgentMessage enabled_unset)
         /\ occurs_in (js "Threshold: No threshold configured")
              (composeAgentMessage disabled)
         /\ composeAgentMessage enabled_unset = no_threshold_message
         /\ composeAgentMessage disabled = no_threshold_message).
Proof.
  cbv zeta. split; [|split].
  - intros enabled above below u. split; [|reflexivity].
    unfold composeAgentMessage. cbn [recipientEmails].
    do 3 apply occurs_in_skip. apply occurs_in_start.
  - split; [vm_compute; reflexivity|].
    split; [|split; [|reflexivity]].
    + unfold composeAgentMessage.
      replace (thresholdLine _)
        with (js "Alert when price goes above $2500/oz")
        by (vm_compute; reflexivity).
      replace (js "Threshold: Alert when price goes above $2500/oz")
        with (js "Threshold: " ++ js "Alert when price goes above $2500/oz")
        by (vm_compute; reflexivity).
      do 5 apply occurs_in_skip. apply occurs_in_here.
    + unfold composeAgentMessage.
      replace (thresholdLine _)
        with (js "Alert when price goes " ++ js "above $2500/oz")
        by (vm_compute; reflexivity).
      do 6 apply occurs_in_skip. rewrite <- app_assoc.
      apply occurs_in_skip. apply occurs_in_start.
  - intros above below u.
    assert (Hclause : forall s,
               thresholdLine s = js "No threshold configured" ->
               occurs_in (js "No threshold configured") (composeAgentMessage s)
               /\ occurs_in (js "Threshold: No threshold configured")
                    (composeAgentMessage s)).
    { intros s Hline. unfold composeAgentMessage. rewrite Hline. split.
      - do 6 apply occurs_in_skip. apply occurs_in_start.
      - replace (js "Threshold: No threshold configured")
          with (js "Threshold: " ++ js "No threshold configured")
          by (vm_compute; reflexivity).
        do 5 apply occurs_in_skip. apply occurs_in_here. }
    split; [reflexivity|]. split; [reflexivity|]. split; [reflexivity|].
    split; [by apply Hclause|]. split; [by apply Hclause|].
    split; [by apply Hclause|]. split; [by apply Hclause|].
    split; reflexivity.
Qed.

End Compose.

(** ** The recipient editor *)

Section Recipients.

(** What [addEmail] does to the list: the trimmed input is appended when
    it is not empty, contains [@] and is not in the list; otherwise the
    list stays as it is. *)
Lemma addEmail_recipients tab :
  let email := trim (emailInput tab) in
  let emails := recipientEmails (tab_settings tab) in
  recipientEmails (tab_settings (addEmail tab)) =
    if nonempty email && includes_char (ch "@") email
       && negb (bool_decide (email ∈ emails))
    then emails ++ [email] else emails.
Proof.
  cbv zeta. unfold addEmail.
  destruct (nonempty (trim (emailInput tab))); simpl; [|reflexivity].
  destruct (includes_char _ _ && negb _); reflexivity.
Qed.

Lemma removeEmail_recipients email tab :
  recipientEmails (tab_settings (removeEmail email tab)) =
    filter (fun e => e ≠ email) (recipientEmails (tab_settings tab)).
Proof. reflexivity. Qed.

Lemma removeEmail_kept removed tab :
  let emails := recipientEmails (tab_settings tab) in
  let kept := recipientEmails (tab_settings (removeEmail removed tab)) in
  NoDup emails ->
  (removed ∉ kept)
  /\ (forall e, e ∈ kept <-> e ∈ emails /\ e ≠ removed)
  /\ kept = filter (fun e => e ≠ removed) emails
  /\ NoDup kept.
Proof.
  cbv zeta. rewrite removeEmail_recipients. intros Hnodup.
  split; [|split; [|split]].
  - intros Hin. apply list_elem_of_filter in Hin. tauto.
  - intros e. rewrite list_elem_of_filter. tauto.
  - reflexivity.
  - by apply NoDup_filter.
Qed.

(** C9: on a list without duplicates, [addEmail] appends the trimmed input
    exactly when it is not empty, contains [@] and is not yet in the list,
    and leaves the list unchanged otherwise; [removeEmail] removes every
    occurrence of the e-mail and nothing else; both leave a list without
    duplicates. *)
Theorem recipient_editing_preserves_NoDup tab :
  NoDup (recipientEmails (tab_settings tab)) ->
  let email := trim (emailInput tab) in
  let emails := recipientEmails (tab_settings tab) in
  let added := recipientEmails (tab_settings (addEmail tab)) in
  (email ≠ [] /\ ch "@" ∈ email /\ email ∉ emails -> added = emails ++ [email])
  /\ (~ (email ≠ [] /\ ch "@" ∈ email /\ email ∉ emails) -> added = emails)
  /\ NoDup added
  /\ forall removed,
       let kept := recipientEmails (tab_settings (removeEmail removed tab)) in
       (removed ∉ kept)
       /\ (forall e, e ∈ kept <-> e ∈ emails /\ e ≠ removed)
       /\ kept = filter (fun e => e ≠ removed) emails
       /\ NoDup kept.
Proof.
  intros Hnodup. cbv zeta. rewrite addEmail_recipients.
  set (email := trim (emailInput tab)).
  set (emails := recipientEmails (tab_settings tab)) in *.
  assert (Hcond :
    nonempty email && includes_char (ch "@") email
      && negb (bool_decide (email ∈ emails)) = true
    <-> email ≠ [] /\ ch "@" ∈ email /\ email ∉ emails).
  { rewrite !andb_true_iff, negb_true_iff, bool_decide_eq_false.
    rewrite nonempty_true, includes_char_elem_of. tauto. }
  split; [|split; [|split]].
  - intros Hyes. apply Hcond in Hyes. rewrite Hyes. reflexivity.
  - intros Hno.
    destruct (nonempty email && _ && _); [|reflexivity].
    exfalso. apply Hno, Hcond. reflexivity.
  - destruct (nonempty email && _ && _); [|assumption].
    assert (Hfresh : email ∉ emails) by (apply Hcond; reflexivity).
    apply NoDup_app. split; [assumption|]. split; [|apply NoDup_singleton].
    intros x Hx Hx'. apply list_elem_of_singleton in Hx' as ->. tauto.
  - intros removed. by apply removeEmail_kept.
Qed.

(** One address in the list, another typed with spaces around it: it is
    added trimmed, the list stays free of duplicates, and removing the
    first address leaves none of it. *)
Lemma recipient_editing_preserves_NoDup_witness :
  let tab :=
    {| tab_settings :=
         with_recipientEmails DEFAULT_SETTINGS [js "a@example.com"];
       emailInput := js " b@example.com " |} in
  NoDup (recipientEmails (tab_settings tab))
  /\ recipientEmails (tab_settings (addEmail tab))
     = [js "a@example.com"; js "b@example.com"]
  /\ NoDup (recipientEmails (tab_settings (addEmail tab)))
  /\ (js "a@example.com"
        ∉ recipientEmails
            (tab_settings (removeEmail (js "a@example.com") tab))).
Proof.
  cbv zeta.
  set (tab := {| tab_settings := _; emailInput := _ |}).
  assert (Hnodup : NoDup (recipientEmails (tab_settings tab)))
    by apply NoDup_singleton.
  destruct (recipient_editing_preserves_NoDup tab Hnodup)
    as (Hadd & _ & Hadded & Hremove).
  split; [exact Hnodup|]. split; [|split; [exact Hadded|]].
  - apply Hadd. split; [by vm_compute|]. split.
    + apply includes_char_elem_of. vm_compute. reflexivity.
    + intros Hin. apply list_elem_of_singleton in Hin. by vm_compute in Hin.
  - apply (Hremove (js "a@example.com")).
Defined.

End Recipients.

(** ** [JSON.parse]: the recursion budget is never the reason of a failure *)

Section JsonFuel.

Local Open Scope nat_scope.

Lemma skip_ws_length s : length (skip_ws s) <= length s.
Proof.
  induction s as [|c s IH]; simpl; [lia|].
  destruct (is_ws c); simpl; lia.
Qed.

Lemma skip_ws_cons s c rest : skip_ws s = c :: rest -> length rest < length s.
Proof.
  intros H. pose proof (skip_ws_length s) as Hle.
  rewrite H in Hle. simpl in Hle. lia.
Qed.

Lemma cons_char_Some c r str rest :
  cons_char c r = Some (str, rest) ->
  exists str', r = Some (str', rest) /\ str = c :: str'.
Proof.
  destruct r as [[str' rest']|]; simpl; [|discriminate].
  intros [= <- <-]. eauto.
Qed.

Lemma parse_string_chars_length s str rest :
  parse_string_chars s = Some (str, rest) -> length rest < length s.
Proof.
  remember (length s) as n eqn:Hn. revert s str rest Hn.
  induction (lt_wf n) as [n _ IH]. intros s str rest -> Hparse.
  destruct s as [|c s]; simpl in Hparse; [discriminate|].
  destruct (c =? 34)%N.
  { injection Hparse as <- <-. simpl. lia. }
  destruct (c =? ch "\")%N.
  - destruct s as [|e s]; [discriminate|].
    destruct (e =? ch "u")%N.
    + destruct s as [|h3 [|h2 [|h1 [|h0 s]]]]; try discriminate.
      destruct (hex4 h3 h2 h1 h0); [|discriminate].
      apply cons_char_Some in Hparse as (str' & Hparse & _).
      eapply IH in Hparse; [|simpl|reflexivity]; simpl; lia.
    + destruct (simple_escape e); [|discriminate].
      apply cons_char_Some in Hparse as (str' & Hparse & _).
      eapply IH in Hparse; [|simpl|reflexivity]; simpl; lia.
  - destruct (c <? 32)%N; [discriminate|].
    apply cons_char_Some in Hparse as (str' & Hparse & _).
    eapply IH in Hparse; [|simpl|reflexivity]; simpl; lia.
Qed.

Lemma span_digits_length s digits rest :
  span_digits s = (digits, rest) -> length s = length digits + length rest.
Proof.
  revert digits rest. induction s as [|c s IH]; intros digits rest; simpl.
  - intros [= <- <-]. reflexivity.
  - destruct (is_digit c).
    + destruct (span_digits s) as [ds after]. intros [= <- <-].
      simpl. rewrite (IH ds after); reflexivity.
    + intros [= <- <-]. reflexivity.
Qed.

Lemma parse_fraction_length s digits rest :
  parse_fraction s = Some (digits, rest) -> length rest <= length s.
Proof.
  unfold parse_fraction. destruct s as [|c s]; [intros [= <- <-]; lia|].
  destruct (c =? ch ".")%N; [|intros [= <- <-]; lia].
  destruct (span_digits s) as [ds after] eqn:Hspan.
  apply span_digits_length in Hspan.
  destruct ds; [discriminate|]. intros [= <- <-]. simpl in *. lia.
Qed.

Lemma parse_exponent_length s e rest :
  parse_exponent s = Some (e, rest) -> length rest <= length s.
Proof.
  unfold parse_exponent. destruct s as [|c s]; [intros [= <- <-]; lia|].
  destruct ((c =? ch "e")%N || (c =? ch "E")%N); [|intros [= <- <-]; lia].
  assert (Hsign : forall minus rest1,
    match s with
    | sign :: rest' =>
        if (sign =? ch "-")%N then (true, rest')
        else if (sign =? ch "+")%N then (false, rest') else (false, s)
    | [] => (false, s)
    end = (minus, rest1) -> length rest1 <= length s).
  { intros minus rest1. destruct s as [|sign s']; [intros [= <- <-]; lia|].
    destruct (sign =? ch "-")%N; [intros [= <- <-]; simpl; lia|].
    destruct (sign =? ch "+")%N; intros [= <- <-]; simpl; lia. }
  destruct (match s with [] => _ | _ => _ end) as [minus rest1].
  specialize (Hsign minus rest1 eq_refl).
  destruct (span_digits rest1) as [ds after] eqn:Hspan.
  apply span_digits_length in Hspan.
  destruct ds; [discriminate|]. intros [= <- <-]. simpl in *. lia.
Qed.

Lemma parse_unsigned_length negative s n rest :
  parse_unsigned negative s = Some (n, rest) -> length rest < length s.
Proof.
  unfold parse_unsigned. destruct s as [|c s]; [discriminate|].
  destruct (is_digit c) eqn:Hdigit; [|discriminate].
  assert (Hint : forall int_digits s1,
    (if (c =? ch "0")%N then ([c], s) else span_digits (c :: s))
      = (int_digits, s1) -> length s1 <= length s).
  { intros int_digits s1. destruct (c =? ch "0")%N.
    - intros [= <- <-]. lia.
    - simpl. rewrite Hdigit. destruct (span_digits s) as [ds after] eqn:Hspan.
      apply span_digits_length in Hspan. intros [= <- <-]. lia. }
  destruct (if (c =? ch "0")%N then _ else _) as [int_digits s1].
  specialize (Hint int_digits s1 eq_refl).
  destruct (parse_fraction s1) as [[frac s2]|] eqn:Hfrac; [|discriminate].
  apply parse_fraction_length in Hfrac.
  destruct (parse_exponent s2) as [[e s3]|] eqn:Hexp; [|discriminate].
  apply parse_exponent_length in Hexp.
  intros [= <- <-]. simpl. lia.
Qed.

Lemma parse_number_length s n rest :
  parse_number s = Some (n, rest) -> length rest < length s.
Proof.
  unfold parse_number. destruct s as [|c s]; [discriminate|].
  destruct (c =? ch "-")%N; intros H; apply parse_unsigned_length in H;
    simpl in *; lia.
Qed.

Lemma strip_prefix_length prefix s rest :
  strip_prefix prefix s = Some rest -> length s = length prefix + length rest.
Proof.
  revert s. induction prefix as [|p prefix IH]; intros s; simpl.
  - intros [= <-]. reflexivity.
  - destruct s as [|c s]; [discriminate|].
    destruct (c =? p)%N; [|discriminate].
    intros H. apply IH in H. simpl. lia.
Qed.

Lemma of_option_shrinks {A} (r : option (A * jsstring)) (f : A -> value) s :
  (forall a rest, r = Some (a, rest) -> length rest < length s) ->
  shrinks (of_option r f) s /\ of_option r f ≠ PFuel.
Proof.
  intros H. destruct r as [[a rest]|]; simpl; split; try done.
  by apply (H a).
Qed.

Lemma literal_shrinks word s rest :
  word ≠ [] ->
  option_map (pair tt) (strip_prefix word s) = Some (tt, rest) ->
  length rest < length s.
Proof.
  intros Hword H. destruct (strip_prefix word s) as [r|] eqn:Hstrip;
    [|discriminate].
  injection H as ->. apply strip_prefix_length in Hstrip.
  destruct word; [done|]. simpl in Hstrip. lia.
Qed.

(** With a budget above twice the length of the text, no parsing function
    runs out of it. *)
Lemma parse_fuel n :
  (forall s,
      shrinks (parse_value n s) s
      /\ (2 * length s < n -> parse_value n s ≠ PFuel))
  /\ (forall acc s,
         shrinks (parse_elements n acc s) s
         /\ (2 * length s + 1 < n -> parse_elements n acc s ≠ PFuel))
  /\ (forall acc s,
         shrinks (parse_members n acc s) s
         /\ (2 * length s + 1 < n -> parse_members n acc s ≠ PFuel)).
Proof.
  induction n as [|n (IHv & IHe & IHm)].
  { repeat split; simpl; trivial; lia. }
  split; [|split].
  - intros [|c rest]; simpl; [done|].
    destruct (c =? ch "{")%N.
    { destruct (skip_ws rest) as [|c' rest'] eqn:Hws; [done|].
      apply skip_ws_cons in Hws as Hlt.
      destruct (c' =? ch "}")%N; [simpl; split; [lia|done]|].
      destruct (IHm [] (c' :: rest')) as [Hshrink Hfuel].
      split.
      - destruct (parse_members n [] (c' :: rest')); simpl in *; lia.
      - intros Hn. apply Hfuel. simpl. lia. }
    destruct (c =? ch "[")%N.
    { destruct (skip_ws rest) as [|c' rest'] eqn:Hws; [done|].
      apply skip_ws_cons in Hws as Hlt.
      destruct (c' =? ch "]")%N; [simpl; split; [lia|done]|].
      destruct (IHe [] (c' :: rest')) as [Hshrink Hfuel].
      split.
      - destruct (parse_elements n [] (c' :: rest')); simpl in *; lia.
      - intros Hn. apply Hfuel. simpl. lia. }
    destruct (c =? 34)%N.
    { edestruct (of_option_shrinks (parse_string_chars rest) VString)
        as [Hshrink Hfuel]; [|split; [exact Hshrink|intros _; exact Hfuel]].
      intros a r Hr. apply parse_string_chars_length in Hr. simpl. lia. }
    destruct (c =? ch "t")%N.
    { edestruct (of_option_shrinks
                   (option_map (pair tt) (strip_prefix (js "true") (c :: rest)))
                   (fun _ => VBool true))
        as [Hshrink Hfuel]; [|split; [exact Hshrink|intros _; exact Hfuel]].
      intros [] r Hr. by apply literal_shrinks in Hr. }
    destruct (c =? ch "f")%N.
    { edestruct (of_option_shrinks
                   (option_map (pair tt) (strip_prefix (js "false") (c :: rest)))
                   (fun _ => VBool false))
        as [Hshrink Hfuel]; [|split; [exact Hshrink|intros _; exact Hfuel]].
      intros [] r Hr. by apply literal_shrinks in Hr. }
    destruct (c =? ch "n")%N.
    { edestruct (of_option_shrinks
                   (option_map (pair tt) (strip_prefix (js "null") (c :: rest)))
                   (fun _ => VNull))
        as [Hshrink Hfuel]; [|split; [exact Hshrink|intros _; exact Hfuel]].
      intros [] r Hr. by apply literal_shrinks in Hr. }
    edestruct (of_option_shrinks (parse_number (c :: rest)) VNumber)
      as [Hshrink Hfuel]; [|split; [exact Hshrink|intros _; exact Hfuel]].
    intros a r Hr. by apply parse_number_length in Hr.
  - intros acc s. simpl.
    destruct (IHv s) as [Hshrink Hfuel].
    destruct (parse_value n s) as [v after| |] eqn:Hv; simpl in Hshrink.
    + destruct (skip_ws after) as [|c rest] eqn:Hws; [done|].
      apply skip_ws_cons in Hws as Hlt.
      destruct (c =? ch ",")%N.
      { destruct (IHe (acc ++ [v]) (skip_ws rest)) as [Hshrink' Hfuel'].
        pose proof (skip_ws_length rest) as Hle.
        split.
        - destruct (parse_elements n (acc ++ [v]) (skip_ws rest));
            simpl in *; lia.
        - intros Hn. apply Hfuel'. lia. }
      destruct (c =? ch "]")%N; [simpl; split; [lia|done]|done].
    + done.
    + split; [done|]. intros Hn. exfalso. apply Hfuel; [lia|reflexivity].
  - intros acc [|c rest]; simpl; [done|].
    destruct (c =? 34)%N; [|done].
    destruct (parse_string_chars rest) as [[key after_key]|] eqn:Hkey; [|done].
    apply parse_string_chars_length in Hkey.
    destruct (skip_ws after_key) as [|colon rest1] eqn:Hws1; [done|].
    apply skip_ws_cons in Hws1 as Hlt1.
    destruct (colon =? ch ":")%N; [|done].
    pose proof (skip_ws_length rest1) as Hle1.
    destruct (IHv (skip_ws rest1)) as [Hshrink Hfuel].
    destruct (parse_value n (skip_ws rest1)) as [v after| |] eqn:Hv;
      simpl in Hshrink.
    + destruct (skip_ws after) as [|c' rest2] eqn:Hws2; [done|].
      apply skip_ws_cons in Hws2 as Hlt2.
      destruct (c' =? ch ",")%N.
      { destruct (IHm (set_prop key v acc) (skip_ws rest2))
          as [Hshrink' Hfuel'].
        pose proof (skip_ws_length rest2) as Hle2.
        split.
        - destruct (parse_members n (set_prop key v acc) (skip_ws rest2));
            simpl in *; lia.
        - intros Hn. apply Hfuel'. lia. }
      destruct (c' =? ch "}")%N; [simpl; split; [lia|done]|done].
    + done.
    + split; [done|]. intros Hn. exfalso. apply Hfuel; [lia|reflexivity].
Qed.

(** More budget does not change a result that was not a lack of it. *)
Lemma parse_more_fuel n :
  (forall s, parse_value n s ≠ PFuel ->
             parse_value (S n) s = parse_value n s)
  /\ (forall acc s, parse_elements n acc s ≠ PFuel ->
                    parse_elements (S n) acc s = parse_elements n acc s)
  /\ (forall acc s, parse_members n acc s ≠ PFuel ->
                    parse_members (S n) acc s = parse_members n acc s).
Proof.
  induction n as [|n (IHv & IHe & IHm)]; [by repeat split|].
  split; [|split].
  - intros s. cbn [parse_value]. destruct s as [|c rest]; [done|].
    destruct (c =? ch "{")%N.
    { destruct (skip_ws rest) as [|c' rest']; [done|].
      destruct (c' =? ch "}")%N; [done|]. apply IHm. }
    destruct (c =? ch "[")%N; [|done].
    destruct (skip_ws rest) as [|c' rest']; [done|].
    destruct (c' =? ch "]")%N; [done|]. apply IHe.
  - intros acc s. cbn [parse_elements]. intros Hfuel.
    destruct (parse_value n s) as [v after| |] eqn:Hv; [| |done].
    + rewrite IHv, Hv by (rewrite Hv; done).
      destruct (skip_ws after) as [|c rest]; [done|].
      destruct (c =? ch ",")%N; [|done]. by apply IHe.
    + rewrite IHv, Hv by (rewrite Hv; done). done.
  - intros acc s. cbn [parse_members]. destruct s as [|c rest]; [done|].
    destruct (c =? 34)%N; [|done].
    destruct (parse_string_chars rest) as [[key after_key]|]; [|done].
    destruct (skip_ws after_key) as [|colon rest1]; [done|].
    destruct (colon =? ch ":")%N; [|done].
    intros Hfuel.
    destruct (parse_value n (skip_ws rest1)) as [v after| |] eqn:Hv; [| |done].
    + rewrite IHv, Hv by (rewrite Hv; done).
      destruct (skip_ws after) as [|c' rest2]; [done|].
      destruct (c' =? ch ",")%N; [|done]. by apply IHm.
    + rewrite IHv, Hv by (rewrite Hv; done). done.
Qed.

Lemma parse_value_fuel_irrelevant n m s :
  2 * length s < n -> n <= m -> parse_value m s = parse_value n s.
Proof.
  intros Hn Hle. induction Hle as [|m Hle IH]; [reflexivity|].
  rewrite <- IH. apply parse_more_fuel. rewrite IH.
  by apply parse_fuel.
Qed.

(** The budget of [JSON_parse] is enough: parsing never stops for lack of
    it, and a larger budget gives the same result. *)
Lemma JSON_parse_budget text :
  parse_value (enough_fuel text) (skip_ws text) ≠ PFuel
  /\ forall n, enough_fuel text <= n ->
       parse_value n (skip_ws text)
       = parse_value (enough_fuel text) (skip_ws text).
Proof.
  pose proof (skip_ws_length text) as Hle. unfold enough_fuel. split.
  - apply parse_fuel. lia.
  - intros n Hn. apply parse_value_fuel_irrelevant; lia.
Qed.

End JsonFuel.

(** ** The response normalizer *)

Section Normalizer.

Lemma from_first_open_Some s span :
  from_first_open s = Some span ->
  exists before rest,
    s = before ++ span /\ span = ch "{" :: rest /\ ch "{" ∉ before.
Proof.
  induction s as [|c s IH]; simpl; [discriminate|].
  destruct (N.eqb_spec c (ch "{")) as [->|Hne].
  - intros [= <-]. exists [], s. repeat split. apply not_elem_of_nil.
  - intros H. destruct (IH H) as (before & rest & -> & -> & Hnot).
    exists (c :: before), rest. repeat split.
    apply not_elem_of_cons. split; [congruence|assumption].
Qed.

Lemma from_first_open_app before rest :
  ch "{" ∉ before ->
  from_first_open (before ++ ch "{" :: rest) = Some (ch "{" :: rest).
Proof.
  induction before as [|c before IH]; intros Hnot; simpl.
  - reflexivity.
  - apply not_elem_of_cons in Hnot as [Hne Hnot].
    destruct (N.eqb_spec c (ch "{")); [congruence|]. by apply IH.
Qed.

Lemma from_first_open_None s : from_first_open s = None -> ch "{" ∉ s.
Proof.
  induction s as [|c s IH]; simpl; [intros _; apply not_elem_of_nil|].
  destruct (N.eqb_spec c (ch "{")) as [->|Hne]; [discriminate|].
  intros H. apply not_elem_of_cons. split; [congruence|by apply IH].
Qed.

Lemma through_last_close_None s : through_last_close s = None -> ch "}" ∉ s.
Proof.
  induction s as [|c s IH]; simpl; [intros _; apply not_elem_of_nil|].
  destruct (through_last_close s); [discriminate|].
  destruct (N.eqb_spec c (ch "}")) as [->|Hne]; [discriminate|].
  intros _. apply not_elem_of_cons. split; [congruence|by apply IH].
Qed.

Lemma through_last_close_absent s : ch "}" ∉ s -> through_last_close s = None.
Proof.
  induction s as [|c s IH]; simpl; [reflexivity|]. intros Hnot.
  apply not_elem_of_cons in Hnot as [Hne Hnot]. rewrite (IH Hnot).
  destruct (N.eqb_spec c (ch "}")); [congruence|reflexivity].
Qed.

Lemma through_last_close_Some s prefix :
  through_last_close s = Some prefix ->
  exists body after,
    s = prefix ++ after /\ prefix = body ++ [ch "}"] /\ ch "}" ∉ after.
Proof.
  revert prefix. induction s as [|c s IH]; intros prefix; simpl;
    [discriminate|].
  destruct (through_last_close s) as [p|] eqn:Hs.
  - intros [= <-]. destruct (IH p eq_refl) as (body & after & -> & -> & Hnot).
    exists (c :: body), after. repeat split. assumption.
  - destruct (N.eqb_spec c (ch "}")) as [->|Hne]; [|discriminate].
    intros [= <-]. exists [], s. repeat split.
    by apply through_last_close_None.
Qed.

Lemma through_last_close_app body after :
  ch "}" ∉ after ->
  through_last_close (body ++ ch "}" :: after) = Some (body ++ [ch "}"]).
Proof.
  intros Hnot. induction body as [|c body IH]; simpl.
  - rewrite (through_last_close_absent _ Hnot). reflexivity.
  - rewrite IH. reflexivity.
Qed.

(** The match runs from the first opening brace to the last closing
    brace. *)
Lemma match_braces_Some s span :
  match_braces s = Some span ->
  exists before body after,
    s = before ++ span ++ after
    /\ span = ch "{" :: body ++ [ch "}"]
    /\ (ch "{" ∉ before) /\ (ch "}" ∉ after).
Proof.
  unfold match_braces.
  destruct (from_first_open s) as [[|open rest]|] eqn:Hopen; try discriminate.
  destruct (from_first_open_Some _ _ Hopen) as (before & rest' & -> & Heq & Hb).
  injection Heq as -> <-.
  destruct (through_last_close rest) as [prefix|] eqn:Hclose; [|discriminate].
  destruct (through_last_close_Some _ _ Hclose) as (body & after & -> & -> & Ha).
  intros [= <-]. exists before, body, after. repeat split; assumption.
Qed.

Lemma match_braces_span before body after :
  ch "{" ∉ before -> ch "}" ∉ after ->
  match_braces (before ++ ch "{" :: body ++ ch "}" :: after)
  = Some (ch "{" :: body ++ [ch "}"]).
Proof.
  intros Hb Ha. unfold match_braces.
  rewrite (from_first_open_app _ _ Hb), (through_last_close_app _ _ Ha).
  reflexivity.
Qed.

Lemma from_first_open_later before rest :
  exists rest',
    from_first_open (before ++ ch "{" :: rest) = Some (ch "{" :: rest')
    /\ forall c, c ∈ rest -> c ∈ rest'.
Proof.
  induction before as [|c before (rest' & IH & Hsub)]; simpl.
  - exists rest. split; [reflexivity|auto].
  - destruct (N.eqb_spec c (ch "{")) as [->|Hne].
    + exists (before ++ ch "{" :: rest). split; [reflexivity|].
      intros x Hx. apply elem_of_app. right. by apply elem_of_cons; right.
    + exists rest'. split; assumption.
Qed.

(** There is no match exactly when no closing brace follows an opening
    one. *)
Lemma match_braces_None s :
  match_braces s = None <->
  ~ exists before body after, s = before ++ ch "{" :: body ++ ch "}" :: after.
Proof.
  split.
  - intros Hnone (before & body & after & ->).
    destruct (from_first_open_later before (body ++ ch "}" :: after))
      as (rest' & Hopen & Hsub).
    unfold match_braces in Hnone. rewrite Hopen in Hnone.
    destruct (through_last_close rest') eqn:Hclose; [discriminate|].
    apply through_last_close_None in Hclose. apply Hclose, Hsub.
    apply elem_of_app. right. by apply elem_of_cons; left.
  - intros Hno. destruct (match_braces s) as [span|] eqn:Hm; [|reflexivity].
    exfalso. apply Hno.
    apply match_braces_Some in Hm as (before & body & after & -> & -> & _).
    exists before, body, after. simpl. by rewrite <- app_assoc.
Qed.

(** On a string the normalizer is a direct parse, then a parse of the
    brace match. *)
Lemma parseAgentResult_VString text :
  parseAgentResult (VString text) =
    try_catch (JSON_parse text)
      (match match_braces text with
       | Some jsonMatch => try_catch (JSON_parse jsonMatch) (Normal VNull)
       | None => Normal VNull
       end).
Proof.
  unfold parseAgentResult. destruct text as [|c text]; [reflexivity|].
  cbn [truthy nonempty negb typeof].
  destruct (decide (js "string" = js "object")) as [Heq|_];
    [by vm_compute in Heq|].
  destruct (decide (js "string" = js "string")) as [_|Hne];
    [reflexivity|done].
Qed.

(** The normalizer never throws, whatever it is given. *)
Lemma parseAgentResult_total v : exists r, parseAgentResult v = Normal r.
Proof.
  destruct v as [| | | |text| | | | |];
    try (unfold parseAgentResult;
         destruct (negb (truthy _)); [eauto|];
         destruct (decide _); [eauto|];
         destruct (decide _) as [Heq|_]; [by vm_compute in Heq|eauto]).
  rewrite parseAgentResult_VString.
  destruct (JSON_parse text); simpl; [eauto|].
  destruct (match_braces text) as [span|]; [|eauto].
  destruct (JSON_parse span); simpl; eauto.
Qed.

(** C3, as stated, fails: the string holds one JSON object and prose with
    a brace pair after it; the first balanced span is the object and
    parses, yet the normalizer returns null. *)
Lemma parseAgentResult_not_first_balanced :
  let text :=
    json_text "Here is the JSON: {'summary':'ok'}. Schema: {summary}" in
  first_balanced_span text = Some (json_text "{'summary':'ok'}")
  /\ normalize_as_specified text
     = Normal (VObject [(js "summary", VString (js "ok"))])
  /\ parseAgentResult (VString text) = Normal VNull
  /\ parseAgentResult (VString text) ≠ normalize_as_specified text.
Proof. cbv zeta. repeat split; try (vm_compute; reflexivity). by vm_compute. Qed.

(** C3, amended: on a string the normalizer never throws; it returns the
    direct parse when that succeeds; otherwise it takes the span from the
    first opening brace to the last closing brace of the string and
    returns its parse, or null when that parse fails or no closing brace
    follows an opening one. *)
Theorem parseAgentResult_string text :
  (exists v, parseAgentResult (VString text) = Normal v)
  /\ (forall v, JSON_parse text = Normal v ->
                parseAgentResult (VString text) = Normal v)
  /\ (forall e, JSON_parse text = Throw e ->
        (forall before body after,
            text = before ++ ch "{" :: body ++ ch "}" :: after ->
            ch "{" ∉ before -> ch "}" ∉ after ->
            parseAgentResult (VString text) =
              match JSON_parse (ch "{" :: body ++ [ch "}"]) with
              | Normal v => Normal v
              | Throw _ => Normal VNull
              end)
        /\ ((~ exists before body after,
                text = before ++ ch "{" :: body ++ ch "}" :: after) ->
            parseAgentResult (VString text) = Normal VNull)).
Proof.
  rewrite parseAgentResult_VString. split; [|split].
  - destruct (JSON_parse text); simpl; [eauto|].
    destruct (match_braces text) as [span|]; [|eauto].
    destruct (JSON_parse span); simpl; eauto.
  - intros v ->. reflexivity.
  - intros e ->. simpl. split.
    + intros before body after -> Hb Ha.
      rewrite (match_braces_span _ _ _ Hb Ha). reflexivity.
    + intros Hno. apply match_braces_None in Hno. rewrite Hno. reflexivity.
Qed.

(** At a JSON object between two pieces of prose without braces the
    normalizer returns the object. *)
Lemma parseAgentResult_string_witness :
  parseAgentResult
    (VString (js "Result: " ++ json_text "{'summary':'ok'}" ++ js " Done."))
  = Normal (VObject [(js "summary", VString (js "ok"))]).
Proof.
  destruct (parseAgentResult_string
              (js "Result: " ++ json_text "{'summary':'ok'}" ++ js " Done."))
    as (_ & _ & Hthrow).
  destruct (Hthrow SyntaxError) as [Hspan _]; [vm_compute; reflexivity|].
  rewrite (Hspan (js "Result: ") (json_text "'summary':'ok'") (js " Done."));
    [vm_compute; reflexivity|vm_compute; reflexivity|vm_compute|vm_compute];
    intros Hin; repeat (apply elem_of_cons in Hin as [Hin|Hin];
                        [discriminate|]);
    by apply elem_of_nil in Hin.
Defined.

(** C4: an object (a value whose [typeof] is [object] and that is not
    null) is returned as it is; null and undefined give null; a value that
    is neither an object nor a string gives null. *)
Theorem parseAgentResult_non_string v :
  (typeof v = js "object" -> v ≠ VNull -> parseAgentResult v = Normal v)
  /\ (v = VNull \/ v = VUndefined -> parseAgentResult v = Normal VNull)
  /\ (typeof v ≠ js "object" -> typeof v ≠ js "string" ->
      parseAgentResult v = Normal VNull).
Proof.
  split; [|split].
  - intros Hobj Hnull.
    destruct v; try done; try (by vm_compute in Hobj); reflexivity.
  - intros [->| ->]; reflexivity.
  - intros Hobj Hstr. unfold parseAgentResult.
    destruct (negb (truthy v)); [reflexivity|].
    destruct (decide (typeof v = js "object")); [done|].
    destruct (decide (typeof v = js "string")); done.
Qed.

Lemma parseAgentResult_non_string_witness :
  parseAgentResult (VObject [(js "summary", VString (js "ok"))])
  = Normal (VObject [(js "summary", VString (js "ok"))])
  /\ parseAgentResult (VArray []) = Normal (VArray [])
  /\ parseAgentResult VNull = Normal VNull
  /\ parseAgentResult VUndefined = Normal VNull
  /\ parseAgentResult (VNumber (Decimal false 42 0)) = Normal VNull
  /\ parseAgentResult (VBool true) = Normal VNull.
Proof.
  refine (conj _ (conj _ (conj _ (conj _ (conj _ _))))).
  - apply (proj1 (parseAgentResult_non_string (VObject _)));
      [reflexivity|done].
  - apply (proj1 (parseAgentResult_non_string (VArray _)));
      [reflexivity|done].
  - apply (proj1 (proj2 (parseAgentResult_non_string VNull))). by left.
  - apply (proj1 (proj2 (parseAgentResult_non_string VUndefined))). by right.
  - apply (proj2 (proj2 (parseAgentResult_non_string (VNumber _))));
      by vm_compute.
  - apply (proj2 (proj2 (parseAgentResult_non_string (VBool _))));
      by vm_compute.
Defined.

End Normalizer.

(** ** The handlers *)

Section Handlers.

Variable svc : Services.

#[local] Arguments buildCron : simpl never.
#[local] Arguments composeAgentMessage : simpl never.
#[local] Arguments JSON_stringify : simpl never.
#[local] Arguments parseAgentResult : simpl never.

(** C10: whatever the agent call and the normalizer do, a check leaves the
    settings, the displayed schedule, the managed schedule identifier and
    the logs as they were, and with them the tab, the sample mode, the
    other loading flags and local storage; it makes one call to the agent;
    afterwards the check is no longer loading, no agent is active and
    processing is off. Only [lastResult], [sessionId] and the notification
    are otherwise free to change. *)
Theorem handleCheckNow_frame w :
  let '(result, w') := run (handleCheckNow svc) w in
  result = Normal tt
  /\ settings (page w') = settings (page w)
  /\ schedule (page w') = schedule (page w)
  /\ scheduleId (page w') = scheduleId (page w)
  /\ logs (page w') = logs (page w)
  /\ activeTab (page w') = activeTab (page w)
  /\ sampleMode (page w') = sampleMode (page w)
  /\ scheduleLoading (page w') = scheduleLoading (page w)
  /\ logsLoading (page w') = logsLoading (page w)
  /\ saving (page w') = saving (page w)
  /\ localStorage w' = localStorage w
  /\ effects w' =
       effects w
       ++ [CallAgent (composeAgentMessage (settings (page w)))
             MANAGER_AGENT_ID]
  /\ checkNowLoading (page w') = false
  /\ activeAgentId (page w') = None
  /\ isProcessing w' = false.
Proof.
  run_handler.
  destruct (callAIAgent svc _ _) as [[response|]|e]; cbn.
  - destruct (Agent.session_id response) as [[|c session]|];
      destruct (Agent.success response); cbn;
      try (destruct (parseAgentResult _) as [parsed|e]; cbn;
           [destruct (truthy parsed); cbn|]);
      repeat split; reflexivity.
  - repeat split; reflexivity.
  - repeat split; reflexivity.
Qed.

(** X20: what a check shows afterwards, by outcome: a rejected call is a
    network error; a reported failure shows the agent's error or the
    fallback text; a success whose result normalizes to a truthy value
    stores it as the last result; any other success keeps the last result
    and says the agent responded. *)
Lemma handleCheckNow_outcomes w :
  let w' := (run (handleCheckNow svc) w).2 in
  let message := composeAgentMessage (settings (page w)) in
  let shown kind text := Some {| type := kind; message := text |} in
  match callAIAgent svc message MANAGER_AGENT_ID with
  | Throw _ =>
      lastResult (page w') = lastResult (page w)
      /\ notification (page w')
         = shown error (js "Network error while checking gold price")
  | Normal result =>
      if from_option Agent.success false result then
        match parseAgentResult
                (from_option id VUndefined (result ≫= Agent.response)) with
        | Normal parsed =>
            if truthy parsed then
              lastResult (page w') = parsed
              /\ notification (page w')
                 = shown success (js "Gold price check completed successfully")
            else
              lastResult (page w') = lastResult (page w)
              /\ notification (page w')
                 = shown success (js "Agent responded. Check results below.")
        | Throw _ =>
            lastResult (page w') = lastResult (page w)
            /\ notification (page w')
               = shown error (js "Network error while checking gold price")
        end
      else
        lastResult (page w') = lastResult (page w)
        /\ notification (page w')
           = shown error (nullish (result ≫= Agent.error)
                            (js "Failed to check gold price"))
  end.
Proof.
  run_handler.
  destruct (callAIAgent svc _ _) as [[response|]|e]; cbn;
    [|split; reflexivity..].
  destruct (Agent.session_id response) as [[|c session]|];
    destruct (Agent.success response); cbn;
    try (destruct (parseAgentResult _) as [parsed|e]; cbn;
         [destruct (truthy parsed); cbn|]);
    split; reflexivity.
Qed.

(** C7, amended: without a loaded schedule the toggle does nothing. With
    one, it calls pause when the schedule is active and resume otherwise;
    when that call returns, whatever it returns, it then gets the
    schedule, and the displayed schedule becomes the fetched one when the
    get reports success with a schedule and stays as it was otherwise,
    never a local flip; the notification is a success when no call threw
    and an error when one did, in which case the displayed schedule is
    unchanged; the loading flag ends false. *)
Theorem handleToggleSchedule_behaviour w :
  let render := page w in
  let sid := scheduleId render in
  let '(result, w') := run (handleToggleSchedule svc) w in
  result = Normal tt
  /\ match schedule render with
     | None => w' = w
     | Some current =>
         let active := Scheduler.is_active current in
         let call := if active then PauseSchedule sid else ResumeSchedule sid in
         let toggled :=
           if active then pauseSchedule svc sid else resumeSchedule svc sid in
         let failed :=
           Some {| type := error;
                   message := js "Failed to update schedule status" |} in
         scheduleLoading (page w') = false
         /\ match toggled with
            | Throw _ =>
                effects w' = effects w ++ [call]
                /\ schedule (page w') = Some current
                /\ notification (page w') = failed
            | Normal _ =>
                effects w' = effects w ++ [call; GetSchedule sid]
                /\ match getSchedule svc sid with
                   | Throw _ =>
                       schedule (page w') = Some current
                       /\ notification (page w') = failed
                   | Normal res =>
                       schedule (page w') =
                         match returned_schedule (Normal res) with
                         | Some fresh => Some fresh
                         | None => Some current
                         end
                       /\ notification (page w') =
                            Some {| type := success;
                                    message := if active
                                               then js "Schedule paused"
                                               else js "Schedule resumed" |}
                   end
            end
     end.
Proof.
  run_handler. destruct (schedule (page w)) as [current|] eqn:Hsched; cbn;
    [|split; reflexivity].
  assert (Hcalls : forall (a b : Effect),
             (effects w ++ [a]) ++ [b] = effects w ++ [a; b])
    by (intros; by rewrite <- app_assoc).
  destruct (Scheduler.is_active current); cbn;
    [destruct (pauseSchedule svc _) as [ack|e]
    |destruct (resumeSchedule svc _) as [ack|e]]; cbn;
    try (destruct (getSchedule svc _) as [res|e']; cbn;
         [destruct (Scheduler.success res), (Scheduler.schedule res); cbn|]);
    rewrite ?Hsched, ?Hcalls; repeat split; reflexivity.
Qed.



End Handlers.

Section HandlerScenarios.

Import Scenario.


(** The stored identifier is the one the next session starts from. *)
Example loadScheduleId_after_save :
  let svc := services (Normal acknowledged) (Normal acknowledged)
               (Normal created) in
  loadScheduleId loaded = INITIAL_SCHEDULE_ID
  /\ loadScheduleId (run (handleSaveSettings svc) loaded).2 = js "6a01f3c2".
Proof. split; vm_compute; reflexivity. Qed.

(** C7, as stated, fails: when the pause call rejects no get is made; and
    when the get reports no success the displayed schedule is the one
    shown before, still active, under a success notification. *)
Lemma handleToggleSchedule_get_not_always :
  (let svc := services (Throw (Rejection (js "offline")))
                (Normal acknowledged) (Normal acknowledged) in
   let w' := (run (handleToggleSchedule svc) loaded).2 in
   effects w' = [PauseSchedule INITIAL_SCHEDULE_ID]
   /\ GetSchedule INITIAL_SCHEDULE_ID ∉ effects w')
  /\ (let svc := services (Normal acknowledged) (Normal refused)
                   (Normal acknowledged) in
      let w' := (run (handleToggleSchedule svc) loaded).2 in
      effects w'
      = [PauseSchedule INITIAL_SCHEDULE_ID; GetSchedule INITIAL_SCHEDULE_ID]
      /\ schedule (page w') = Some active_schedule
      /\ notification (page w')
         = Some {| type := success; message := js "Schedule paused" |}).
Proof.
  cbv zeta. split; [split|]; [reflexivity| |repeat split; reflexivity].
  intros Hin. apply list_elem_of_singleton in Hin. discriminate.
Qed.

End HandlerScenarios.

(** ** The resilient call gateway *)

Section GatewayFacts.

Import Gateway.

Variable env : Env.

(** C2, amended: the wrapper never throws. A rejected request asks the
    network-error question and returns nothing. A redirected response
    sends the window to the response's url and returns nothing, without a
    question, whatever its status. A response that was not redirected and
    has a status of 500 or more asks the backend-error question and
    returns nothing, whether or not the user accepts the reload. Any other
    response is returned as it is. *)
Theorem fetchWrapper_outcomes args b :
  let '(result, b') := fetchWrapper env args b in
  match fetch env args with
  | Throw _ =>
      result = Normal None
      /\ location_href b' = location_href b
      /\ log b' = log b ++ Fetch args :: asked env NETWORK_ERROR_QUESTION
  | Normal response =>
      if redirected response then
        result = Normal None
        /\ location_href b' = url response
        /\ log b' = log b ++ [Fetch args; Navigate (url response)]
      else if 500 <=? status response then
        result = Normal None
        /\ location_href b' = location_href b
        /\ log b' = log b ++ Fetch args :: asked env BACKEND_ERROR_QUESTION
      else
        result = Normal (Some response)
        /\ location_href b' = location_href b
        /\ log b' = log b ++ [Fetch args]
  end.
Proof.
  unfold fetchWrapper, await_fetch, set_location_href, ask, reload, asked,
    record, try_action, modify, mbind, mret, action_bind, action_ret.
  cbn. destruct (fetch env args) as [response|e]; cbn.
  - destruct (redirected response); cbn.
    { rewrite <- app_assoc. repeat split; reflexivity. }
    destruct (500 <=? status response); cbn; [|repeat split; reflexivity].
    destruct (confirm env BACKEND_ERROR_QUESTION); cbn;
      rewrite <- ?app_assoc; repeat split; reflexivity.
  - destruct (confirm env NETWORK_ERROR_QUESTION); cbn;
      rewrite <- ?app_assoc; repeat split; reflexivity.
Qed.

End GatewayFacts.

Section GatewayScenario.

Import Gateway Scenario.

(** C2, as stated, fails: a redirected response with status 500 sends the
    window to its url and the user is asked nothing. *)
Lemma fetchWrapper_redirected_error_not_prompted :
  let env := {| fetch := fun _ => Normal redirected_error;
                confirm := fun _ => true |} in
  let '(result, b') := fetchWrapper env [] browser in
  500 <= status redirected_error
  /\ result = Normal None
  /\ location_href b' = js "/login"
  /\ log b' = [Fetch []; Navigate (js "/login")]
  /\ forall question, Confirm question ∉ log b'.
Proof.
  cbv zeta. cbn. repeat split; try reflexivity; try done.
  intros question Hin.
  repeat (apply elem_of_cons in Hin as [Hin|Hin]; [discriminate|]).
  by apply elem_of_nil in Hin.
Qed.

End GatewayScenario.

(** ** Stored settings: what is written can be read back *)

Section StoredSettings.

Lemma hex_value_digit d : d < 16 -> hex_value (hex_digit d) = Some d.
Proof.
  intros Hd. unfold hex_value, hex_digit, is_digit.
  destruct (N.ltb_spec d 10).
  - replace ((48 <=? 48 + d) && (48 + d <=? 57)) with true
      by (symmetry; apply andb_true_iff; split; apply N.leb_le; lia).
    f_equal. lia.
  - replace ((48 <=? 87 + d) && (87 + d <=? 57)) with false
      by (symmetry; apply andb_false_iff; right; apply N.leb_gt; lia).
    replace ((97 <=? 87 + d) && (87 + d <=? 102)) with true
      by (symmetry; apply andb_true_iff; split; apply N.leb_le; lia).
    f_equal. lia.
Qed.

(** The four digits of an escape give back the code unit. *)
Lemma hex4_escape c :
  c < 65536 ->
  hex4 (hex_digit (c / 4096)) (hex_digit ((c / 256) mod 16))
       (hex_digit ((c / 16) mod 16)) (hex_digit (c mod 16)) = Some c.
Proof.
  intros Hc. unfold hex4.
  rewrite !hex_value_digit.
  - f_equal. zify. Z.to_euclidean_division_equations. lia.
  - apply N.mod_lt. lia.
  - apply N.mod_lt. lia.
  - apply N.mod_lt. lia.
  - zify. Z.to_euclidean_division_equations. lia.
Qed.

Lemma parse_plain_char c text :
  c ≠ 34 -> c ≠ ch "\" -> 32 <= c ->
  parse_string_chars (c :: text) = cons_char c (parse_string_chars text).
Proof.
  intros H1 H2 H3. simpl.
  destruct (N.eqb_spec c 34); [done|].
  destruct (N.eqb_spec c (ch "\")); [done|].
  destruct (N.ltb_spec c 32); [lia|]. reflexivity.
Qed.

Lemma parse_unicode_escape c text :
  c < 65536 ->
  parse_string_chars (unicode_escape c ++ text)
  = cons_char c (parse_string_chars text).
Proof.
  intros Hc. unfold unicode_escape.
  change (js "\u") with [ch "\"; ch "u"]. cbn [app parse_string_chars].
  change (ch "\" =? 34) with false. change (ch "\" =? ch "\") with true.
  change (ch "u" =? ch "u") with true. cbv iota.
  rewrite (hex4_escape c Hc). reflexivity.
Qed.

(** Reading a quoted string gives back the string, whatever its code units,
    and stops after the closing quote. *)
Lemma parse_quote_chars s rest :
  parse_string_chars (quote_chars s ++ 34 :: rest) = Some (s, rest).
Proof.
  remember (length s) as n eqn:Hn. revert s Hn.
  induction (lt_wf n) as [n _ IH]. intros s ->.
  destruct s as [|c s]; [simpl; reflexivity|].
  assert (IHs : parse_string_chars (quote_chars s ++ 34 :: rest) = Some (s, rest))
    by (eapply IH; [|reflexivity]; simpl; lia).
  cbn [quote_chars].
  destruct (N.eqb_spec c 8) as [->|?];
    [rewrite <- app_assoc; unfold js, ch; cbn; unfold js, ch in IHs; rewrite IHs; reflexivity|].
  destruct (N.eqb_spec c 9) as [->|?];
    [rewrite <- app_assoc; unfold js, ch; cbn; unfold js, ch in IHs; rewrite IHs; reflexivity|].
  destruct (N.eqb_spec c 10) as [->|?];
    [rewrite <- app_assoc; unfold js, ch; cbn; unfold js, ch in IHs; rewrite IHs; reflexivity|].
  destruct (N.eqb_spec c 12) as [->|?];
    [rewrite <- app_assoc; unfold js, ch; cbn; unfold js, ch in IHs; rewrite IHs; reflexivity|].
  destruct (N.eqb_spec c 13) as [->|?];
    [rewrite <- app_assoc; unfold js, ch; cbn; unfold js, ch in IHs; rewrite IHs; reflexivity|].
  destruct (N.eqb_spec c 34) as [->|?];
    [rewrite <- app_assoc; unfold js, ch; cbn; unfold js, ch in IHs; rewrite IHs; reflexivity|].
  destruct (N.eqb_spec c (ch "\")) as [->|?];
    [rewrite <- app_assoc; unfold js, ch; cbn; unfold js, ch in IHs; rewrite IHs; reflexivity|].
  destruct (N.ltb_spec c 32).
  { rewrite <- app_assoc, parse_unicode_escape, IHs by lia. reflexivity. }
  unfold is_high_surrogate, is_low_surrogate.
  destruct (N.leb_spec 55296 c); cbn [andb].
  - destruct (N.leb_spec c 56319); cbn [andb].
    + destruct s as [|d s].
      * cbn [app]. rewrite <- (app_nil_r (unicode_escape c)), <- app_assoc.
        rewrite parse_unicode_escape by lia. reflexivity.
      * destruct (N.leb_spec 56320 d); cbn [andb].
        -- destruct (N.leb_spec d 57343); cbn [andb].
           ++ cbn [app]. rewrite !parse_plain_char by (try lia; unfold ch; simpl; lia).
              erewrite IH; [reflexivity| |reflexivity]. simpl. lia.
           ++ rewrite <- app_assoc, parse_unicode_escape, IHs by lia. reflexivity.
        -- rewrite <- app_assoc, parse_unicode_escape, IHs by lia. reflexivity.
    + destruct (N.leb_spec 56320 c); cbn [andb].
      * destruct (N.leb_spec c 57343); cbn [andb].
        -- rewrite <- app_assoc, parse_unicode_escape, IHs by lia. reflexivity.
        -- cbn [app]. rewrite parse_plain_char, IHs by assumption. reflexivity.
      * lia.
  - destruct (N.leb_spec 56320 c); [lia|]. cbn [andb app].
    rewrite parse_plain_char, IHs by assumption. reflexivity.
Qed.

Local Open Scope nat_scope.

(** A result that is not a lack of budget is the result of any larger
    budget. *)
Lemma parse_value_fuel_ge n m s r :
  parse_value n s = r -> r ≠ PFuel -> n <= m -> parse_value m s = r.
Proof.
  intros Hr Hfuel Hle. induction Hle as [|m Hle IH]; [assumption|].
  rewrite <- IH. apply parse_more_fuel. by rewrite IH.
Qed.

Lemma parse_value_quoted n val rest :
  parse_value (S n) (34%N :: quote_chars val ++ 34%N :: rest)
  = POk (VString val) rest.
Proof. cbn [parse_value]. cbn. by rewrite parse_quote_chars. Qed.

Lemma parse_value_bool n b rest :
  parse_value (S n) (json_bool b ++ rest) = POk (VBool b) rest.
Proof. destruct b; reflexivity. Qed.

Lemma join_quoted_cons e more :
  exists tail, join (js ",") (List.map quoted (e :: more)) = 34%N :: tail.
Proof. destruct more; cbn; eauto. Qed.

Lemma skip_ws_join_quoted e more rest :
  skip_ws (join (js ",") (List.map quoted (e :: more)) ++ rest)
  = join (js ",") (List.map quoted (e :: more)) ++ rest.
Proof. destruct (join_quoted_cons e more) as [tail ->]. reflexivity. Qed.

(** An array of quoted strings parses to the strings, given a budget above
    their number. *)
Lemma parse_elements_strings emails : forall n acc rest,
  emails ≠ [] -> length emails < n ->
  parse_elements n acc
    (join (js ",") (List.map quoted emails) ++ ch "]" :: rest)
  = POk (VArray (acc ++ List.map VString emails)) rest.
Proof.
  induction emails as [|e more IH]; intros n acc rest Hne Hlen; [done|].
  destruct n as [|m]; [simpl in Hlen; lia|].
  destruct more as [|e' more'].
  - cbn [List.map join]. unfold quoted. rewrite <- !app_assoc.
    cbn [app parse_elements].
    destruct m as [|k]; [simpl in Hlen; lia|].
    rewrite parse_value_quoted. reflexivity.
  - assert (Hjoin : join (js ",") (List.map quoted (e :: e' :: more'))
                    = 34%N :: quote_chars e ++ 34%N :: ch "," ::
                        join (js ",") (List.map quoted (e' :: more'))).
    { cbn [List.map join]. unfold quoted at 1. rewrite <- !app_assoc.
      reflexivity. }
    rewrite Hjoin. cbn [app]. rewrite <- app_assoc. cbn [app parse_elements].
    destruct m as [|k]; [simpl in Hlen; lia|].
    rewrite parse_value_quoted.
    change (skip_ws (ch "," :: ?x)) with (ch "," :: x).
    cbv iota. change (ch "," =? ch ",")%N with true. cbv iota.
    rewrite skip_ws_join_quoted. rewrite IH; [|done|simpl in *; lia].
    rewrite <- app_assoc. reflexivity.
Qed.

Lemma parse_value_strings n emails rest :
  length emails < n ->
  parse_value (S n)
    (ch "[" :: join (js ",") (List.map quoted emails) ++ ch "]" :: rest)
  = POk (VArray (List.map VString emails)) rest.
Proof.
  intros Hlen. destruct emails as [|e more]; [reflexivity|].
  cbn [parse_value]. change (ch "[" =? ch "{")%N with false.
  change (ch "[" =? ch "[")%N with true. cbv iota.
  rewrite skip_ws_join_quoted.
  destruct (join_quoted_cons e more) as [tail Htail].
  rewrite Htail at 1. cbn [app]. cbv iota.
  change (34 =? ch "]")%N with false. cbv iota.
  by rewrite parse_elements_strings.
Qed.

Lemma parse_members_next n acc key v vtext c rest :
  parse_value n (c :: vtext) = POk v (ch "," :: 34%N :: rest) ->
  is_ws c = false ->
  parse_members (S n) acc (34%N :: quote_chars key ++ 34%N :: ch ":" :: c :: vtext)
  = parse_members n (set_prop key v acc) (34%N :: rest).
Proof.
  intros Hv Hc. cbn [parse_members]. change (34 =? 34)%N with true. cbv iota.
  rewrite parse_quote_chars.
  change (skip_ws (ch ":" :: ?x)) with (ch ":" :: x). cbv iota.
  change (ch ":" =? ch ":")%N with true. cbv iota.
  cbn [skip_ws]. rewrite Hc, Hv. reflexivity.
Qed.

Lemma parse_members_last n acc key v vtext c rest :
  parse_value n (c :: vtext) = POk v (ch "}" :: rest) ->
  is_ws c = false ->
  parse_members (S n) acc (34%N :: quote_chars key ++ 34%N :: ch ":" :: c :: vtext)
  = POk (VObject (set_prop key v acc)) rest.
Proof.
  intros Hv Hc. cbn [parse_members]. change (34 =? 34)%N with true. cbv iota.
  rewrite parse_quote_chars.
  change (skip_ws (ch ":" :: ?x)) with (ch ":" :: x). cbv iota.
  change (ch ":" =? ch ":")%N with true. cbv iota.
  cbn [skip_ws]. rewrite Hc, Hv. reflexivity.
Qed.

Lemma parse_members_bool n acc key b rest :
  parse_members (S (S n)) acc
    (34%N :: quote_chars key ++ 34%N :: ch ":" :: json_bool b ++
     ch "," :: 34%N :: rest)
  = parse_members (S n) (set_prop key (VBool b) acc) (34%N :: rest).
Proof.
  destruct b.
  - exact (parse_members_next (S n) acc key (VBool true)
             (js "rue" ++ ch "," :: 34%N :: rest) (ch "t") rest
             eq_refl eq_refl).
  - exact (parse_members_next (S n) acc key (VBool false)
             (js "alse" ++ ch "," :: 34%N :: rest) (ch "f") rest
             eq_refl eq_refl).
Qed.

(** The stored text, one code unit after the other. *)
Lemma JSON_stringify_text s :
  JSON_stringify s =
    ch "{" :: 34%N :: quote_chars (js "recipientEmails") ++ 34%N :: ch ":" ::
    ch "[" :: join (js ",") (List.map quoted (recipientEmails s)) ++ ch "]" ::
    ch "," :: 34%N :: quote_chars (js "frequency") ++ 34%N :: ch ":" ::
    34%N :: quote_chars (frequency_string (frequency s)) ++ 34%N ::
    ch "," :: 34%N :: quote_chars (js "triggerTime") ++ 34%N :: ch ":" ::
    34%N :: quote_chars (triggerTime s) ++ 34%N ::
    ch "," :: 34%N :: quote_chars (js "timezone") ++ 34%N :: ch ":" ::
    34%N :: quote_chars (timezone s) ++ 34%N ::
    ch "," :: 34%N :: quote_chars (js "thresholdEnabled") ++ 34%N :: ch ":" ::
    json_bool (thresholdEnabled s) ++
    ch "," :: 34%N :: quote_chars (js "thresholdAbove") ++ 34%N :: ch ":" ::
    34%N :: quote_chars (thresholdAbove s) ++ 34%N ::
    ch "," :: 34%N :: quote_chars (js "thresholdBelow") ++ 34%N :: ch ":" ::
    34%N :: quote_chars (thresholdBelow s) ++ 34%N ::
    ch "," :: 34%N :: quote_chars (js "unit") ++ 34%N :: ch ":" ::
    34%N :: quote_chars (unit_string (unit s)) ++ 34%N :: [ch "}"].
Proof.
  unfold JSON_stringify, quoted. rewrite <- !app_assoc. reflexivity.
Qed.

Lemma length_join_quoted emails :
  length emails <= length (join (js ",") (List.map quoted emails)).
Proof.
  induction emails as [|e [|e' more] IH]; [simpl; lia|simpl; lia|].
  change (join (js ",") (List.map quoted (e :: e' :: more)))
    with (quoted e ++ js "," ++ join (js ",") (List.map quoted (e' :: more))).
  rewrite !length_app. simpl in *. lia.
Qed.

Lemma length_JSON_stringify s :
  6 + length (recipientEmails s) <= length (JSON_stringify s).
Proof.
  pose proof (length_join_quoted (recipientEmails s)) as Hjoin.
  unfold JSON_stringify. do 5 rewrite length_app.
  unfold quoted at 1. do 2 rewrite length_app.
  change (length (js "{")) with 1. change (length (js ":[")) with 2.
  change (length (js "],")) with 2. change (length [34%N]) with 1.
  revert Hjoin.
  generalize (length (join (js ",") (List.map quoted (recipientEmails s)))).
  generalize (length (recipientEmails s)).
  intros n m Hjoin. generalize (length (quote_chars (js "recipientEmails"))).
  intros k.
  match goal with |- context [2 + length ?x] => generalize (length x) end.
  intros t. lia.
Qed.

(** Parsing the stored text of the settings gives the settings. *)
Lemma JSON_parse_stringify s : JSON_parse (JSON_stringify s) = Normal (settings_value s).
Proof.
  unfold JSON_parse.
  assert (Hparse : parse_value (12 + length (recipientEmails s))
                     (JSON_stringify s) = POk (settings_value s) []).
  { rewrite JSON_stringify_text. cbn [Nat.add parse_value].
    change (ch "{" =? ch "{")%N with true. cbv iota.
    change (skip_ws (34%N :: ?x)) with (34%N :: x). cbv iota.
    change (34 =? ch "}")%N with false. cbv iota.
    erewrite parse_members_next;
      [|apply parse_value_strings; lia|reflexivity].
    do 3 (erewrite parse_members_next; [|apply parse_value_quoted|reflexivity]).
    rewrite parse_members_bool.
    do 2 (erewrite parse_members_next; [|apply parse_value_quoted|reflexivity]).
    erewrite parse_members_last; [|apply parse_value_quoted|reflexivity].
    reflexivity. }
  assert (Hskip : skip_ws (JSON_stringify s) = JSON_stringify s)
    by (rewrite JSON_stringify_text; reflexivity).
  rewrite Hskip.
  erewrite parse_value_fuel_ge; [|exact Hparse|done|]; [reflexivity|].
  unfold enough_fuel. pose proof (length_JSON_stringify s). lia.
Qed.


End StoredSettings.

(** ** What [JSON.parse] returns is plain JSON data *)

Section JsonData.

Lemma json_data_VObject props : json_data (VObject props) = true <-> props_ok props.
Proof.
  unfold props_ok. cbn [json_data].
  rewrite andb_true_iff, bool_decide_eq_true. reflexivity.
Qed.

Lemma set_prop_keys key v props :
  List.map fst (set_prop key v props) =
    if bool_decide (key ∈ List.map fst props) then List.map fst props
    else List.map fst props ++ [key].
Proof.
  induction props as [|[k old] props IH]; [reflexivity|].
  cbn [set_prop List.map fst]. destruct (decide (k = key)) as [->|Hne].
  - rewrite bool_decide_eq_true_2 by (apply elem_of_cons; by left).
    reflexivity.
  - cbn [List.map fst]. rewrite IH.
    destruct (bool_decide (key ∈ List.map fst props)) eqn:Hin.
    + apply bool_decide_eq_true in Hin.
      rewrite bool_decide_eq_true_2 by (apply elem_of_cons; by right).
      reflexivity.
    + apply bool_decide_eq_false in Hin.
      rewrite bool_decide_eq_false_2; [reflexivity|].
      intros [?|?]%elem_of_cons; congruence.
Qed.

Lemma set_prop_ok key v props :
  json_data v = true -> props_ok props -> props_ok (set_prop key v props).
Proof.
  intros Hv [Hdata Hkeys]. split.
  - clear Hkeys. induction props as [|[k old] props IH]; cbn.
    + by rewrite Hv.
    + cbn in Hdata. apply andb_true_iff in Hdata as [Hold Hrest].
      destruct (decide (k = key)); cbn.
      * by rewrite Hv, Hrest.
      * by rewrite Hold, IH.
  - rewrite set_prop_keys. case_bool_decide as Hin; [assumption|].
    apply NoDup_app. split; [assumption|]. split; [|apply NoDup_singleton].
    intros x Hx Hx'. apply list_elem_of_singleton in Hx' as ->. done.
Qed.

Lemma parse_number_data s n rest :
  parse_number s = Some (n, rest) -> json_data (VNumber n) = true.
Proof.
  assert (Hmake : forall negative digits e,
             json_data (VNumber (make_number negative digits e)) = true).
  { intros. unfold make_number. by destruct (_ =? 0)%N. }
  assert (Hunsigned : forall negative text,
             parse_unsigned negative text = Some (n, rest) ->
             json_data (VNumber n) = true).
  { intros negative text. unfold parse_unsigned.
    destruct text as [|c text]; [done|]. destruct (is_digit c); [|done].
    destruct (if (c =? ch "0")%N then _ else _) as [int_digits s1].
    destruct (parse_fraction s1) as [[frac s2]|]; [|done].
    destruct (parse_exponent s2) as [[e s3]|]; [|done].
    intros [= <- _]. apply Hmake. }
  unfold parse_number. destruct s as [|c s]; [done|].
  destruct (c =? ch "-")%N; apply Hunsigned.
Qed.

Lemma of_option_data {A} (r : option (A * jsstring)) (f : A -> value) v rest :
  (forall a rest', r = Some (a, rest') -> json_data (f a) = true) ->
  of_option r f = POk v rest -> json_data v = true.
Proof.
  destruct r as [[a rest']|]; [|done]. intros H [= <- _]. by eapply H.
Qed.

Lemma forallb_snoc {A} (f : A -> bool) l x :
  forallb f (l ++ [x]) = forallb f l && f x.
Proof. rewrite forallb_app. cbn. by rewrite andb_true_r. Qed.

(** Whatever budget they run with, the parsing functions build plain JSON
    data from plain JSON data. *)
Lemma parse_data n :
  (forall s v rest, parse_value n s = POk v rest -> json_data v = true)
  /\ (forall acc s v rest,
         parse_elements n acc s = POk v rest ->
         forallb json_data acc = true -> json_data v = true)
  /\ (forall acc s v rest,
         parse_members n acc s = POk v rest ->
         props_ok acc -> json_data v = true).
Proof.
  induction n as [|n (IHv & IHe & IHm)]; [by repeat split|].
  split; [|split].
  - intros [|c text] v rest; cbn [parse_value]; [done|].
    destruct (c =? ch "{")%N.
    { destruct (skip_ws text) as [|c' rest']; [done|].
      destruct (c' =? ch "}")%N; [by intros [= <- _]|].
      intros H. eapply IHm; [exact H|]. split; [done|constructor]. }
    destruct (c =? ch "[")%N.
    { destruct (skip_ws text) as [|c' rest']; [done|].
      destruct (c' =? ch "]")%N; [by intros [= <- _]|].
      intros H. by eapply IHe. }
    destruct (c =? 34)%N; [by apply of_option_data|].
    destruct (c =? ch "t")%N; [by apply of_option_data|].
    destruct (c =? ch "f")%N; [by apply of_option_data|].
    destruct (c =? ch "n")%N; [by apply of_option_data|].
    apply of_option_data. intros a rest'. apply parse_number_data.
  - intros acc s v rest. cbn [parse_elements].
    destruct (parse_value n s) as [item after| |] eqn:Hitem; [|done..].
    apply IHv in Hitem.
    destruct (skip_ws after) as [|c text]; [done|].
    destruct (c =? ch ",")%N.
    { intros H Hacc. eapply IHe; [exact H|].
      by rewrite forallb_snoc, Hacc, Hitem. }
    destruct (c =? ch "]")%N; [|done].
    intros [= <- _] Hacc. cbn [json_data]. by rewrite forallb_snoc, Hacc, Hitem.
  - intros acc [|c text] v rest; cbn [parse_members]; [done|].
    destruct (c =? 34)%N; [|done].
    destruct (parse_string_chars text) as [[key after_key]|]; [|done].
    destruct (skip_ws after_key) as [|colon rest1]; [done|].
    destruct (colon =? ch ":")%N; [|done].
    destruct (parse_value n (skip_ws rest1)) as [item after| |] eqn:Hitem;
      [|done..].
    apply IHv in Hitem.
    destruct (skip_ws after) as [|c' rest2]; [done|].
    destruct (c' =? ch ",")%N.
    { intros H Hacc. eapply IHm; [exact H|]. by apply set_prop_ok. }
    destruct (c' =? ch "}")%N; [|done].
    intros [= <- _] Hacc. apply json_data_VObject. by apply set_prop_ok.
Qed.

(** A successful [JSON.parse] returns plain JSON data (no undefined,
    function, symbol, big integer or NaN anywhere in it) in which no object
    holds a key twice. *)
Lemma JSON_parse_json_data text v :
  JSON_parse text = Normal v -> json_data v = true.
Proof.
  unfold JSON_parse.
  destruct (parse_value _ _) as [parsed rest| |] eqn:Hparse; [|done..].
  destruct (skip_ws rest); [|done]. intros [= <-].
  exact (proj1 (parse_data _) _ _ _ Hparse).
Qed.

(** X8: when the normalizer is given a string, what it returns is plain
    JSON data, the parsed text, the parsed brace span or null: never
    undefined, a function, a symbol, a big integer or NaN, and with no key
    twice in an object. A number in it may be an infinity, as for the text
    [1e400]. *)
Theorem parseAgentResult_string_json_data text v :
  parseAgentResult (VString text) = Normal v -> json_data v = true.
Proof.
  rewrite parseAgentResult_VString.
  destruct (JSON_parse text) as [direct|e] eqn:Hdirect; cbn [try_catch].
  { intros [= <-]. by eapply JSON_parse_json_data. }
  destruct (match_braces text) as [span|]; [|by intros [= <-]].
  destruct (JSON_parse span) as [inner|e'] eqn:Hinner; cbn [try_catch].
  - intros [= <-]. by eapply JSON_parse_json_data.
  - by intros [= <-].
Qed.

Lemma parseAgentResult_string_json_data_witness :
  json_data VNull = true
  /\ json_data (VObject [(js "summary", VString (js "ok"))]) = true.
Proof.
  split.
  - apply (parseAgentResult_string_json_data (js "no result today")).
    vm_compute. reflexivity.
  - apply (parseAgentResult_string_json_data
             (json_text "Done. {'summary':'ok'}")).
    vm_compute. reflexivity.
Defined.

End JsonData.

(** ** Loading the settings *)

Section LoadSettings.

Lemma get_prop_set_prop key key' v props :
  get_prop key (set_prop key' v props) =
    if decide (key' = key) then Some v else get_prop key props.
Proof.
  induction props as [|[k old] props IH]; cbn [set_prop get_prop].
  - destruct (decide (key' = key)); reflexivity.
  - destruct (decide (k = key')) as [->|Hne]; cbn [get_prop].
    + destruct (decide (key' = key)); reflexivity.
    + rewrite IH. destruct (decide (k = key)) as [->|]; [|reflexivity].
      destruct (decide (key' = key)); [congruence|reflexivity].
Qed.

Lemma get_prop_None key props :
  key ∉ List.map fst props -> get_prop key props = None.
Proof.
  induction props as [|[k v] props IH]; [reflexivity|].
  cbn [List.map fst get_prop]. intros [Hne Hin]%not_elem_of_cons.
  destruct (decide (k = key)); [congruence|]. by apply IH.
Qed.

(** Laying a duplicate-free list of properties over a target: a key of the
    list takes its value there, any other key keeps the target's. *)
Lemma get_prop_spread key props : forall target,
  NoDup (List.map fst props) ->
  get_prop key (fold_left (fun acc kv => set_prop kv.1 kv.2 acc) props target)
  = match get_prop key props with
    | Some v => Some v
    | None => get_prop key target
    end.
Proof.
  induction props as [|[k v] props IH]; intros target Hkeys; [reflexivity|].
  cbn [List.map fst] in Hkeys. apply NoDup_cons in Hkeys as [Hfresh Hkeys].
  cbn [fold_left get_prop fst snd]. rewrite (IH _ Hkeys), get_prop_set_prop.
  destruct (decide (k = key)) as [->|Hne]; [|reflexivity].
  by rewrite (get_prop_None _ _ Hfresh).
Qed.

Lemma get_prop_fold_is_Some key props : forall target,
  is_Some (get_prop key target) ->
  is_Some (get_prop key
             (fold_left (fun acc kv => set_prop kv.1 kv.2 acc) props target)).
Proof.
  induction props as [|[k v] props IH]; intros target Hsome; [assumption|].
  cbn [fold_left fst snd]. apply IH. rewrite get_prop_set_prop.
  destruct (decide (k = key)); [eauto|assumption].
Qed.

Lemma nonempty_JSON_stringify s : nonempty (JSON_stringify s) = true.
Proof. by rewrite JSON_stringify_text. Qed.

(** X1: what [saveSettings] stores, [loadSettings] reads back: in a window,
    loading after saving any settings gives exactly those settings, with
    every string in them intact. *)
Theorem loadSettings_saveSettings s w store :
  localStorage w = Some store ->
  loadSettings (saveSettings s w).2 = Normal (settings_value s).
Proof.
  intros Hstore. unfold saveSettings, setItem, loadSettings.
  rewrite Hstore. cbn [snd localStorage with_effect with_localStorage].
  rewrite lookup_insert_eq, nonempty_JSON_stringify, JSON_parse_stringify.
  reflexivity.
Qed.

Lemma loadSettings_saveSettings_witness :
  let edited :=
    with_recipientEmails DEFAULT_SETTINGS [js "a@example.com"; [34; 92; 10]] in
  loadSettings (saveSettings edited Scenario.loaded).2
  = Normal (settings_value edited).
Proof.
  cbv zeta. apply (loadSettings_saveSettings _ Scenario.loaded ∅). reflexivity.
Defined.

(** X2: [loadSettings] never throws and always returns an object that has
    every key of the default settings, whatever local storage holds. *)
Theorem loadSettings_has_every_key w :
  exists props,
    loadSettings w = Normal (VObject props)
    /\ forall key,
         key ∈ List.map fst (settings_props DEFAULT_SETTINGS) ->
         is_Some (get_prop key props).
Proof.
  assert (Hdefault : forall key,
             key ∈ List.map fst (settings_props DEFAULT_SETTINGS) ->
             is_Some (get_prop key (settings_props DEFAULT_SETTINGS))).
  { intros key Hin. cbn in Hin.
    repeat (apply elem_of_cons in Hin as [->|Hin]; [by eexists|]).
    by apply elem_of_nil in Hin. }
  unfold loadSettings.
  destruct (localStorage w) as [store|]; [|by eexists].
  destruct (store !! STORAGE_KEY) as [raw|]; [|by eexists].
  destruct (nonempty raw); [|by eexists]. cbn [negb].
  destruct (JSON_parse raw) as [parsed|e]; [|by eexists].
  eexists. split; [reflexivity|]. intros key Hin.
  apply get_prop_fold_is_Some. by apply Hdefault.
Qed.

(** X3: with no window, nothing stored, an empty stored text, a stored text
    that does not parse, or one that parses to a value without properties
    (null, a boolean, a number), [loadSettings] returns the defaults. *)
Theorem loadSettings_defaults w :
  match localStorage w with
  | None => True
  | Some store =>
      match store !! STORAGE_KEY with
      | None => True
      | Some raw =>
          raw = []
          \/ (exists e, JSON_parse raw = Throw e)
          \/ (exists parsed,
                 JSON_parse raw = Normal parsed /\ own_properties parsed = [])
      end
  end ->
  loadSettings w = Normal (settings_value DEFAULT_SETTINGS).
Proof.
  unfold loadSettings.
  destruct (localStorage w) as [store|]; [|reflexivity].
  destruct (store !! STORAGE_KEY) as [raw|]; [|reflexivity].
  intros [->|[[e He]|(parsed & Hparsed & Hnone)]]; [reflexivity| |].
  - destruct (nonempty raw); [|reflexivity]. by rewrite He.
  - destruct (nonempty raw); [|reflexivity]. rewrite Hparsed.
    cbn [negb try_catch]. unfold spread. by rewrite Hnone.
Qed.

Lemma loadSettings_defaults_witness :
  loadSettings
    (with_localStorage (Some {[STORAGE_KEY := js "{recipientEmails"]})
       Scenario.loaded)
  = Normal (settings_value DEFAULT_SETTINGS)
  /\ loadSettings
       (with_localStorage (Some {[STORAGE_KEY := js "null"]}) Scenario.loaded)
     = Normal (settings_value DEFAULT_SETTINGS).
Proof.
  split; apply loadSettings_defaults; cbn;
    rewrite lookup_singleton_eq; right; [left|right].
  - exists SyntaxError. vm_compute. reflexivity.
  - exists VNull. split; [vm_compute|]; reflexivity.
Defined.

(** X4: when the stored text parses to an object, the loaded settings take
    each key from the stored object when it has it and from the defaults
    when it does not; keys the defaults do not know are kept too. *)
Theorem loadSettings_merge w store raw stored :
  localStorage w = Some store ->
  store !! STORAGE_KEY = Some raw ->
  JSON_parse raw = Normal (VObject stored) ->
  exists merged,
    loadSettings w = Normal (VObject merged)
    /\ forall key,
         get_prop key merged =
           match get_prop key stored with
           | Some v => Some v
           | None => get_prop key (settings_props DEFAULT_SETTINGS)
           end.
Proof.
  intros Hstore Hraw Hparse. unfold loadSettings. rewrite Hstore, Hraw.
  destruct raw as [|c raw]; [by vm_compute in Hparse|].
  cbn [nonempty negb]. rewrite Hparse. cbn [try_catch].
  eexists. split; [reflexivity|]. intros key. unfold spread.
  cbn [own_properties]. apply get_prop_spread.
  apply JSON_parse_json_data, json_data_VObject in Hparse. apply Hparse.
Qed.

Lemma loadSettings_merge_witness :
  exists merged,
    loadSettings
      (with_localStorage
         (Some {[STORAGE_KEY := json_text "{'unit':'gram','theme':'dark'}"]})
         Scenario.loaded)
    = Normal (VObject merged)
    /\ get_prop (js "unit") merged = Some (VString (js "gram"))
    /\ get_prop (js "triggerTime") merged = Some (VString (js "09:00"))
    /\ get_prop (js "theme") merged = Some (VString (js "dark")).
Proof.
  destruct (loadSettings_merge
              (with_localStorage
                 (Some {[STORAGE_KEY :=
                           json_text "{'unit':'gram','theme':'dark'}"]})
                 Scenario.loaded)
              {[STORAGE_KEY := json_text "{'unit':'gram','theme':'dark'}"]}
              (json_text "{'unit':'gram','theme':'dark'}")
              [(js "unit", VString (js "gram"));
               (js "theme", VString (js "dark"))])
    as (merged & Hload & Hkeys).
  - reflexivity.
  - apply lookup_singleton_eq.
  - vm_compute. reflexivity.
  - exists merged. split; [exact Hload|].
    rewrite !Hkeys. repeat split; vm_compute; reflexivity.
Defined.

End LoadSettings.

(** ** The managed identifier across sessions *)

Section ManagedIdentifier.

Variable svc : Services.

#[local] Arguments buildCron : simpl never.
#[local] Arguments composeAgentMessage : simpl never.
#[local] Arguments JSON_stringify : simpl never.

Lemma schedule_key_differs : SCHEDULE_ID_KEY ≠ STORAGE_KEY.
Proof. by vm_compute. Qed.

(** X5: a stored identifier is the one the next session starts from, except
    the empty one, which is stored and then read as absent: the session
    starts from the built-in identifier. *)
Theorem loadScheduleId_saveScheduleId id w store :
  localStorage w = Some store ->
  loadScheduleId (saveScheduleId id w).2 =
    if nonempty id then id else INITIAL_SCHEDULE_ID.
Proof.
  intros Hstore. unfold saveScheduleId, setItem, loadScheduleId.
  rewrite Hstore. cbn [snd localStorage with_effect with_localStorage].
  by rewrite lookup_insert_eq.
Qed.

Lemma loadScheduleId_saveScheduleId_witness :
  loadScheduleId (saveScheduleId (js "6a01f3c2") Scenario.loaded).2
  = js "6a01f3c2"
  /\ loadScheduleId (saveScheduleId [] Scenario.loaded).2
     = INITIAL_SCHEDULE_ID.
Proof.
  split.
  - apply (loadScheduleId_saveScheduleId (js "6a01f3c2") Scenario.loaded ∅).
    reflexivity.
  - apply (loadScheduleId_saveScheduleId [] Scenario.loaded ∅). reflexivity.
Defined.

(** X6: the two stored items do not disturb each other: saving the settings
    leaves the stored identifier as it was, and storing an identifier leaves
    the stored settings as they were. *)
Theorem stored_items_independent s id w :
  loadScheduleId (saveSettings s w).2 = loadScheduleId w
  /\ loadSettings (saveScheduleId id w).2 = loadSettings w.
Proof.
  unfold saveSettings, saveScheduleId, setItem, loadScheduleId, loadSettings.
  destruct (localStorage w) as [store|] eqn:Hstore;
    cbn [snd localStorage with_effect with_localStorage];
    rewrite ?Hstore; [|done].
  rewrite !lookup_insert_ne; [done|apply schedule_key_differs|].
  apply not_eq_sym, schedule_key_differs.
Qed.


End ManagedIdentifier.


(** ** Refreshing the schedule and the history *)

Section Refresh.

Variable svc : Services.
Variable getScheduleLogs : jsstring -> N -> completion History.Result.

#[local] Arguments buildCron : simpl never.
#[local] Arguments composeAgentMessage : simpl never.
#[local] Arguments JSON_stringify : simpl never.
#[local] Arguments parseAgentResult : simpl never.

(** X9: a schedule refresh makes one get for the managed identifier and
    never throws or notifies: the displayed schedule becomes the fetched one
    when the get reports success with a schedule and stays what it was when
    the get fails, carries no schedule or rejects; the loading flag ends
    false and nothing else on the page or in local storage changes. *)
Theorem fetchScheduleData_behaviour w :
  let '(result, w') := run (fetchScheduleData svc) w in
  result = Normal tt
  /\ effects w' = effects w ++ [GetSchedule (scheduleId (page w))]
  /\ schedule (page w') =
       match returned_schedule (getSchedule svc (scheduleId (page w))) with
       | Some fresh => Some fresh
       | None => schedule (page w)
       end
  /\ page w' =
       with_scheduleLoading false (with_schedule (schedule (page w')) (page w))
  /\ localStorage w' = localStorage w
  /\ isProcessing w' = isProcessing w.
Proof.
  run_refresh.
  destruct (getSchedule svc _) as [res|e]; cbn;
    [destruct (Scheduler.success res), (Scheduler.schedule res); cbn|];
    repeat split; reflexivity.
Qed.

(** X10: a history refresh asks for the runs of the managed identifier, at
    most 20 of them, and never throws or notifies: the logs are replaced by
    the returned runs when the call reports success with a list, and stay
    what they were otherwise, so a failed refresh never empties the
    history; the loading flag ends false and nothing else changes. *)
Theorem fetchLogs_behaviour w :
  let '(result, w') := run (fetchLogs getScheduleLogs) w in
  result = Normal tt
  /\ logs (page w') =
       match getScheduleLogs (scheduleId (page w)) 20%N with
       | Normal res =>
           match History.success res, History.executions res with
           | true, Some executions => executions
           | _, _ => logs (page w)
           end
       | Throw _ => logs (page w)
       end
  /\ page w' = with_logsLoading false (with_logs (logs (page w')) (page w))
  /\ localStorage w' = localStorage w
  /\ isProcessing w' = isProcessing w
  /\ effects w' = effects w.
Proof.
  run_refresh.
  destruct (getScheduleLogs _ _) as [res|e]; cbn;
    [destruct (History.success res), (History.executions res); cbn|];
    repeat split; reflexivity.
Qed.


(** X12: a check stores the agent's session identifier whenever the call
    returns one that is not empty, also when the agent reports a failure or
    returns a result that cannot be used; a rejected call, a call without
    result and a result without session identifier leave the stored one as
    it was. *)
Theorem handleCheckNow_sessionId w :
  sessionId (page (run (handleCheckNow svc) w).2) =
    match callAIAgent svc (composeAgentMessage (settings (page w)))
            MANAGER_AGENT_ID with
    | Normal (Some response) =>
        match Agent.session_id response with
        | Some session =>
            if nonempty session then Some session else sessionId (page w)
        | None => sessionId (page w)
        end
    | Normal None | Throw _ => sessionId (page w)
    end.
Proof.
  run_handler.
  destruct (callAIAgent svc _ _) as [[response|]|e]; cbn; [|reflexivity..].
  destruct (Agent.session_id response) as [[|c session]|];
    destruct (Agent.success response); cbn;
    try (destruct (parseAgentResult _) as [parsed|e]; cbn;
         [destruct (truthy parsed); cbn|]);
    reflexivity.
Qed.


End Refresh.

(** ** More on the recipient editor *)

Section RecipientEditor.

Lemma trim_start_head s c rest :
  trim_start s = c :: rest -> is_trim_space c = false.
Proof.
  induction s as [|x s IH]; cbn [trim_start]; [done|].
  destruct (is_trim_space x) eqn:Hx; [assumption|]. by intros [= <- _].
Qed.

Lemma trim_start_fixed s :
  match s with
  | c :: _ => is_trim_space c = false
  | [] => True
  end -> trim_start s = s.
Proof. destruct s as [|c s]; [done|]. cbn [trim_start]. by intros ->. Qed.

Lemma trim_start_suffix s : exists spaces, s = spaces ++ trim_start s.
Proof.
  induction s as [|c s [spaces IH]]; [by exists []|]. cbn [trim_start].
  destruct (is_trim_space c); [|by exists []].
  exists (c :: spaces). cbn [app]. by rewrite <- IH.
Qed.

Lemma trim_start_idempotent s : trim_start (trim_start s) = trim_start s.
Proof.
  apply trim_start_fixed. destruct (trim_start s) eqn:Hs; [done|].
  by eapply trim_start_head.
Qed.

(** Trimming a trimmed string changes nothing. *)
Lemma trim_idempotent s : trim (trim s) = trim s.
Proof.
  unfold trim. set (a := trim_start s). set (b := trim_start (rev a)).
  assert (Hfront : trim_start (rev b) = rev b).
  { apply trim_start_fixed. destruct (rev b) as [|c rest] eqn:Hb; [done|].
    destruct (trim_start_suffix (rev a)) as [spaces Hspaces]. fold b in Hspaces.
    apply (f_equal (@rev N)) in Hspaces.
    rewrite rev_involutive, rev_app_distr, Hb in Hspaces.
    eapply trim_start_head. exact Hspaces. }
  rewrite Hfront, rev_involutive. subst b. by rewrite trim_start_idempotent.
Qed.

(** X14: the editor keeps every recipient well formed: when every address
    in the list is not empty, contains [@] and has no white space around
    it, the same holds after [addEmail] and after [removeEmail]. *)
Theorem recipients_stay_well_formed tab :
  Forall well_formed_email (recipientEmails (tab_settings tab)) ->
  Forall well_formed_email (recipientEmails (tab_settings (addEmail tab)))
  /\ forall removed,
       Forall well_formed_email
         (recipientEmails (tab_settings (removeEmail removed tab))).
Proof.
  intros Hall. split.
  - rewrite addEmail_recipients.
    destruct (nonempty _ && _ && _) eqn:Hadd; [|assumption].
    apply andb_true_iff in Hadd as [[Hfull Hat]%andb_true_iff _].
    apply Forall_app. split; [assumption|]. apply Forall_singleton.
    split; [by apply nonempty_true|].
    split; [by apply includes_char_elem_of|apply trim_idempotent].
  - intros removed. rewrite removeEmail_recipients.
    apply Forall_forall. intros x [_ Hx]%list_elem_of_filter.
    revert x Hx. by apply Forall_forall.
Qed.

Lemma recipients_stay_well_formed_witness :
  Forall well_formed_email [js "a@example.com"; js "b@example.com"].
Proof.
  apply (recipients_stay_well_formed
           {| tab_settings :=
                with_recipientEmails DEFAULT_SETTINGS [js "a@example.com"];
              emailInput := js "  b@example.com " |}).
  apply Forall_singleton. split; [done|].
  split; [|vm_compute; reflexivity].
  apply includes_char_elem_of. vm_compute. reflexivity.
Defined.

Lemma filter_absent (e : jsstring) (emails : list jsstring) :
  e ∉ emails -> filter (fun x => x ≠ e) emails = emails.
Proof.
  induction emails as [|x emails IH]; [done|].
  intros [Hne Hin]%not_elem_of_cons.
  rewrite filter_cons_True by congruence. by rewrite IH.
Qed.

(** X15: removing the address that was just typed undoes [addEmail]: when
    the trimmed input is not already in the list, removing it after
    [addEmail] gives back the list as it was, whether or not the input was
    accepted. *)
Theorem removeEmail_undoes_addEmail tab :
  trim (emailInput tab) ∉ recipientEmails (tab_settings tab) ->
  recipientEmails
    (tab_settings (removeEmail (trim (emailInput tab)) (addEmail tab)))
  = recipientEmails (tab_settings tab).
Proof.
  intros Hfresh. rewrite removeEmail_recipients, addEmail_recipients.
  destruct (nonempty _ && _ && _); [|by apply filter_absent].
  rewrite filter_app, (filter_absent _ _ Hfresh).
  rewrite filter_cons_False by (intros H; by apply H).
  apply app_nil_r.
Qed.

Lemma removeEmail_undoes_addEmail_witness :
  let tab :=
    {| tab_settings :=
         with_recipientEmails DEFAULT_SETTINGS [js "a@example.com"];
       emailInput := js " b@example.com" |} in
  recipientEmails
    (tab_settings (removeEmail (js "b@example.com") (addEmail tab)))
  = [js "a@example.com"].
Proof.
  cbv zeta.
  apply (removeEmail_undoes_addEmail
           {| tab_settings :=
                with_recipientEmails DEFAULT_SETTINGS [js "a@example.com"];
              emailInput := js " b@example.com" |}).
  intros Hin. apply list_elem_of_singleton in Hin. by vm_compute in Hin.
Defined.

(** X16: typing the same address again and adding it a second time changes
    nothing: the list after the second [addEmail] is the list after the
    first. *)
Theorem addEmail_twice tab :
  let once := addEmail tab in
  let retyped :=
    {| tab_settings := tab_settings once; emailInput := emailInput tab |} in
  recipientEmails (tab_settings (addEmail retyped))
  = recipientEmails (tab_settings once).
Proof.
  cbv zeta. rewrite (addEmail_recipients {| tab_settings := _ |}).
  cbn [tab_settings emailInput]. rewrite addEmail_recipients.
  set (email := trim (emailInput tab)).
  set (emails := recipientEmails (tab_settings tab)).
  destruct (nonempty email && includes_char (ch "@") email) eqn:Hvalid;
    cbn [andb]; [|reflexivity].
  destruct (bool_decide (email ∈ emails)) eqn:Hin; cbn [negb].
  - by rewrite Hin.
  - rewrite bool_decide_eq_true_2; [reflexivity|].
    apply elem_of_app. right. by apply list_elem_of_singleton.
Qed.

End RecipientEditor.

(** ** More on the cron expression and the message *)

Section CronAndMessage.

Lemma not_in_literal c (literal : jsstring) :
  bool_decide (c ∈ literal) = false -> c ∉ literal.
Proof. apply bool_decide_eq_false. Qed.

(** X17: components after the minute are ignored: a time with seconds
    gives the expression of its hour and minute. *)
Theorem buildCron_ignores_seconds f h m rest :
  ch ":" ∉ h -> ch ":" ∉ m ->
  buildCron f (h ++ ch ":" :: m ++ ch ":" :: rest)
  = buildCron f (h ++ ch ":" :: m).
Proof.
  intros Hh Hm. unfold buildCron.
  rewrite !(split_first _ _ _ Hh), (split_first _ _ _ Hm),
    (split_no_separator _ _ Hm).
  reflexivity.
Qed.

Lemma buildCron_ignores_seconds_witness :
  buildCron (js "daily") (js "09:30:45") = buildCron (js "daily") (js "09:30").
Proof.
  apply (buildCron_ignores_seconds (js "daily") (js "09") (js "30") (js "45"));
    apply not_in_literal; vm_compute; reflexivity.
Defined.

(** X18: for a time of the form hour, colon, minute, with no colon or space
    in either part, the expression has exactly five fields: the minute, the
    hour (a star when hourly), two stars, and a star or, when weekly, 1. *)
Theorem buildCron_five_fields f h m :
  ch ":" ∉ h -> ch ":" ∉ m -> ch " " ∉ h -> ch " " ∉ m ->
  split (ch " ") (buildCron (frequency_string f) (h ++ ch ":" :: m)) =
    match f with
    | hourly => [m; js "*"; js "*"; js "*"; js "*"]
    | daily => [m; h; js "*"; js "*"; js "*"]
    | weekly => [m; h; js "*"; js "*"; js "1"]
    end.
Proof.
  intros Hh Hm Hh' Hm'. rewrite (buildCron_components _ _ _ Hh Hm).
  destruct f; cbn [frequency_string].
  - rewrite decide_True by reflexivity.
    change (m ++ js " * * * *") with (m ++ ch " " :: js "* * * *").
    by rewrite (split_first _ _ _ Hm').
  - rewrite decide_False by (by vm_compute).
    rewrite decide_False by (by vm_compute).
    change (m ++ js " " ++ h ++ js " * * *")
      with (m ++ ch " " :: h ++ ch " " :: js "* * *").
    by rewrite (split_first _ _ _ Hm'), (split_first _ _ _ Hh').
  - rewrite decide_False by (by vm_compute).
    rewrite decide_True by reflexivity.
    change (m ++ js " " ++ h ++ js " * * 1")
      with (m ++ ch " " :: h ++ ch " " :: js "* * 1").
    by rewrite (split_first _ _ _ Hm'), (split_first _ _ _ Hh').
Qed.

Lemma buildCron_five_fields_witness :
  split (ch " ") (buildCron (js "weekly") (js "18:05"))
  = [js "05"; js "18"; js "*"; js "*"; js "1"].
Proof.
  apply (buildCron_five_fields weekly (js "18") (js "05"));
    apply not_in_literal; vm_compute; reflexivity.
Defined.

Lemma not_in_join c sep parts :
  c ∉ sep -> Forall (fun part => c ∉ part) parts -> c ∉ join sep parts.
Proof.
  intros Hsep. induction 1 as [|part parts Hpart Hparts IH];
    [apply not_elem_of_nil|].
  destruct parts as [|next parts]; [assumption|].
  change (join sep (part :: next :: parts))
    with (part ++ sep ++ join sep (next :: parts)).
  rewrite !not_elem_of_app. auto.
Qed.

Lemma thresholdLine_one_line s :
  10 ∉ thresholdAbove s -> 10 ∉ thresholdBelow s -> 10 ∉ thresholdLine s.
Proof.
  intros Habove Hbelow. unfold thresholdLine.
  assert (Hunit : 10 ∉ match unit s with gram => js "g" | ounce => js "oz" end)
    by (destruct (unit s); apply not_in_literal; vm_compute; reflexivity).
  destruct (thresholdEnabled s);
    [|apply not_in_literal; vm_compute; reflexivity].
  destruct (nonempty (thresholdAbove s)), (nonempty (thresholdBelow s));
    cbn [app join];
    rewrite ?not_elem_of_app;
    repeat split;
    first [assumption|apply not_in_literal; vm_compute; reflexivity].
Qed.

(** X19: the message has exactly four lines, the fixed first line, the
    recipients, the threshold and the unit, as long as no recipient and no
    threshold bound contains a line break. *)
Theorem composeAgentMessage_lines s :
  Forall (fun e => 10 ∉ e) (recipientEmails s) ->
  10 ∉ thresholdAbove s -> 10 ∉ thresholdBelow s ->
  split 10 (composeAgentMessage s) =
    [js "Fetch current gold prices and send an alert email.";
     js "Recipients: "
       ++ match recipientEmails s with
          | [] => js "no recipients configured"
          | _ :: _ => join (js ", ") (recipientEmails s)
          end;
     js "Threshold: " ++ thresholdLine s;
     js "Unit preference: " ++ unit_string (unit s)].
Proof.
  intros Hemails Habove Hbelow. unfold composeAgentMessage.
  set (recipients := match recipientEmails s with [] => _ | _ => _ end).
  assert (Hfirst :
    10 ∉ js "Fetch current gold prices and send an alert email.")
    by (apply not_in_literal; vm_compute; reflexivity).
  assert (Hrecipients : 10 ∉ js "Recipients: " ++ recipients).
  { apply not_elem_of_app. split;
      [apply not_in_literal; vm_compute; reflexivity|].
    subst recipients. destruct (recipientEmails s) eqn:Hlist;
      [apply not_in_literal; vm_compute; reflexivity|].
    rewrite <- Hlist in *. apply not_in_join; [|assumption].
    apply not_in_literal. vm_compute. reflexivity. }
  assert (Hthreshold : 10 ∉ js "Threshold: " ++ thresholdLine s).
  { apply not_elem_of_app. split;
      [apply not_in_literal; vm_compute; reflexivity|].
    by apply thresholdLine_one_line. }
  assert (Hunit : 10 ∉ js "Unit preference: " ++ unit_string (unit s)).
  { destruct (unit s); apply not_in_literal; vm_compute; reflexivity. }
  replace (js "Fetch current gold prices and send an alert email." ++ [10]
           ++ js "Recipients: " ++ recipients ++ [10]
           ++ js "Threshold: " ++ thresholdLine s ++ [10]
           ++ js "Unit preference: " ++ unit_string (unit s))
    with (js "Fetch current gold prices and send an alert email." ++ 10 ::
          (js "Recipients: " ++ recipients) ++ 10 ::
          (js "Threshold: " ++ thresholdLine s) ++ 10 ::
          (js "Unit preference: " ++ unit_string (unit s)))
    by (rewrite <- !app_assoc; reflexivity).
  rewrite (split_first _ _ _ Hfirst), (split_first _ _ _ Hrecipients),
    (split_first _ _ _ Hthreshold), (split_no_separator _ _ Hunit).
  reflexivity.
Qed.

Lemma composeAgentMessage_lines_witness :
  length (split 10 (composeAgentMessage DEFAULT_SETTINGS)) = 4%nat.
Proof.
  rewrite (composeAgentMessage_lines DEFAULT_SETTINGS);
    [reflexivity|constructor|apply not_in_literal; vm_compute; reflexivity..].
Defined.

End CronAndMessage.
